(** * Review tool (streamlit_appy.py): diff highlighting, review form, navigation

    A shallow embedding of the reproducible core of [streamlit_appy.py]:

    - [PyStr]: Python [str.split()], [' '.join(..)], [str.replace(pat, '')];
    - [Difflib]: [difflib.SequenceMatcher(None, a, b)] as the script uses it
      ([__chain_b], [find_longest_match], [get_matching_blocks],
      [get_opcodes]);
    - [get_text_diff_v2_highlight] (lines 165-180);
    - the sidebar's select box, the review form and the navigation
      handlers over an explicit session store (lines 107-129 and 194-345);
    - the two dataset loaders under [st.cache_data] (lines 30-53).

    Python integers that index lists are non-negative everywhere in this
    code and are modelled by [nat]; a Python exception and an exhausted loop
    budget are both the [None] of an [option] result. *)

From Stdlib Require Import Ascii String.
From stdpp Require Import gmap strings list sorting pretty.

Local Open Scope nat_scope.

(** ** Python strings *)

Module PyStr.

(** A Python [str] is a sequence of code points; the embedding keeps the
    code points 0..255 and writes a string as [list ascii]. *)

Definition lit (s : string) : list ascii := list_ascii_of_string s.

(** [str.isspace] on one code point below 256: TAB..CR, FS..US, space,
    NEL and NBSP. *)
Definition isspace (c : ascii) : bool :=
  let n := nat_of_ascii c in
  ((9 <=? n) && (n <=? 13)) || ((28 <=? n) && (n <=? 32))
  || (n =? 133) || (n =? 160).

(** [s.split()]: runs of whitespace separate the words, no empty word is
    produced.  [cur] is the word being scanned, most recent character
    first. *)
Fixpoint split_from (cur : list ascii) (s : list ascii) : list (list ascii) :=
  match s with
  | [] => match cur with [] => [] | _ => [rev cur] end
  | c :: s' =>
      if isspace c
      then match cur with
           | [] => split_from [] s'
           | _ => rev cur :: split_from [] s'
           end
      else split_from (c :: cur) s'
  end.

Definition split (s : list ascii) : list (list ascii) := split_from [] s.

(** [sep.join(ws)] *)
Fixpoint join (sep : list ascii) (ws : list (list ascii)) : list ascii :=
  match ws with
  | [] => []
  | [w] => w
  | w :: ws' => w ++ sep ++ join sep ws'
  end.

(** [s.startswith(pat)] *)
Fixpoint startswith (pat s : list ascii) : bool :=
  match pat, s with
  | [], _ => true
  | p :: pat', c :: s' => bool_decide (p = c) && startswith pat' s'
  | _ :: _, [] => false
  end.

(** [s.replace(pat, '')] for a non-empty [pat]: occurrences are found left
    to right and do not overlap.  [skip] counts the characters of the
    occurrence just found that are still to be dropped. *)
Fixpoint remove_from (pat : list ascii) (skip : nat) (s : list ascii) : list ascii :=
  match s with
  | [] => []
  | c :: s' =>
      match skip with
      | S n => remove_from pat n s'
      | 0 =>
          if startswith pat s
          then remove_from pat (length pat - 1) s'
          else c :: remove_from pat 0 s'
      end
  end.

Definition remove (pat s : list ascii) : list ascii := remove_from pat 0 s.

(** [pat in s] *)
Definition contains (pat s : list ascii) : Prop :=
  ∃ u v, s = u ++ pat ++ v.

Definition SP : list ascii := lit " ".

End PyStr.

(** ** difflib.SequenceMatcher *)

Module Difflib.

Inductive tag := Equal | Delete | Insert | Replace.

Global Instance tag_eq_dec : EqDecision tag.
Proof. solve_decision. Defined.

(** A matching block [(i, j, k)]: [a[i:i+k] == b[j:j+k]]. *)
Abbreviation Match := (nat * nat * nat)%type.

(** An opcode [(tag, i1, i2, j1, j2)]. *)
Abbreviation opcode := (tag * nat * nat * nat * nat)%type.

(** Python compares tuples lexicographically; this is the order
    [matching_blocks.sort()] uses. *)
Definition Match_le (x y : Match) : Prop :=
  let '(i1, j1, k1) := x in
  let '(i2, j2, k2) := y in
  i1 < i2 ∨ (i1 = i2 ∧ (j1 < j2 ∨ (j1 = j2 ∧ k1 ≤ k2))).

Global Instance Match_le_dec : RelDecision Match_le.
Proof. intros [[i1 j1] k1] [[i2 j2] k2]. unfold Match_le. apply _. Defined.

Section SequenceMatcher.
Context {E : Type} `{Countable E}.

(** *** [__chain_b] *)

(** [for i, elt in enumerate(b): b2j.setdefault(elt, []).append(i)] *)
Fixpoint chain_b_loop (i : nat) (b : list E) (b2j : gmap E (list nat))
  : gmap E (list nat) :=
  match b with
  | [] => b2j
  | elt :: b' =>
      chain_b_loop (S i) b' (<[elt := default [] (b2j !! elt) ++ [i]]> b2j)
  end.

(** [isjunk] is [None]: the junk set stays empty. *)
Definition bjunk : gset E := ∅.

(** [popular]: with [autojunk] (the default) and [n >= 200], the
    elements that occur more than [n // 100 + 1] times. *)
Definition popular_of (n : nat) (b2j : gmap E (list nat)) : gset E :=
  dom (filter (λ p : E * list nat, n `div` 100 + 1 < length p.2) b2j).

Definition chain_b (b : list E) : gmap E (list nat) :=
  let b2j := chain_b_loop 0 b ∅ in
  let n := length b in
  if bool_decide (200 ≤ n)
  then foldr delete b2j (elements (popular_of n b2j))
  else b2j.

(** *** [find_longest_match] *)

Section FLM.
Variables (a b : list E) (b2j : gmap E (list nat)).
Variables (alo ahi blo bhi : nat).

(** [j2len.get(j-1, 0)]: every key of [j2len] is a position of [b],
    so the key [-1] asked for at [j = 0] is never present. *)
Definition j2lenget (j2len : gmap nat nat) (j : nat) : nat :=
  match j with
  | 0 => 0
  | S j' => default 0 (j2len !! j')
  end.

(** The loop [for j in b2j.get(a[i], nothing)] of one row [i].  The
    new best is [(i-k+1, j-k+1, k)], written with the subtraction
    last as [k <= i+1] and [k <= j+1]. *)
Fixpoint row (i : nat) (j2len : gmap nat nat) (js : list nat)
    (newj2len : gmap nat nat) (best : Match) : gmap nat nat * Match :=
  match js with
  | [] => (newj2len, best)
  | j :: js' =>
      if bool_decide (j < blo) then row i j2len js' newj2len best
      else if bool_decide (bhi ≤ j) then (newj2len, best)
      else
        let k := j2lenget j2len j + 1 in
        let newj2len := <[j := k]> newj2len in
        let best :=
          if bool_decide (best.2 < k) then (S i - k, S j - k, k) else best in
        row i j2len js' newj2len best
  end.

(** [for i in range(alo, ahi)] *)
Fixpoint rows (range : list nat) (j2len : gmap nat nat) (best : Match)
  : option Match :=
  match range with
  | [] => Some best
  | i :: range' =>
      ai ← a !! i;
      let '(newj2len, best') := row i j2len (default [] (b2j !! ai)) ∅ best in
      rows range' newj2len best'
  end.

(** [while besti > alo and bestj > blo and (not) isbjunk(b[bestj-1])
    and a[besti-1] == b[bestj-1]].  [junk] selects between the first
    loop (non-junk, [false]) and the third (junk, [true]). *)
Fixpoint grow_left (junk : bool) (besti bestj bestsize : nat) {struct besti}
  : option Match :=
  match besti with
  | 0 => Some (besti, bestj, bestsize)
  | S i' =>
      if bool_decide (alo < besti) && bool_decide (blo < bestj) then
        bj ← b !! (bestj - 1);
        if bool_decide (bool_decide (bj ∈ bjunk) = junk) then
          ai ← a !! i';
          if bool_decide (ai = bj)
          then grow_left junk i' (bestj - 1) (bestsize + 1)
          else Some (besti, bestj, bestsize)
        else Some (besti, bestj, bestsize)
      else Some (besti, bestj, bestsize)
  end.

(** [while besti+bestsize < ahi and bestj+bestsize < bhi and (not)
    isbjunk(b[bestj+bestsize]) and a[..] == b[..]].  [n] bounds the
    number of rounds; [ahi - (besti+bestsize)] is enough. *)
Fixpoint grow_right (junk : bool) (n : nat) (besti bestj bestsize : nat)
  : option Match :=
  match n with
  | 0 => Some (besti, bestj, bestsize)
  | S n' =>
      if bool_decide (besti + bestsize < ahi)
         && bool_decide (bestj + bestsize < bhi) then
        bj ← b !! (bestj + bestsize);
        if bool_decide (bool_decide (bj ∈ bjunk) = junk) then
          ai ← a !! (besti + bestsize);
          if bool_decide (ai = bj)
          then grow_right junk n' besti bestj (bestsize + 1)
          else Some (besti, bestj, bestsize)
        else Some (besti, bestj, bestsize)
      else Some (besti, bestj, bestsize)
  end.

Definition find_longest_match : option Match :=
  '(besti, bestj, bestsize) ← rows (seq alo (ahi - alo)) ∅ (alo, blo, 0);
  '(besti, bestj, bestsize) ← grow_left false besti bestj bestsize;
  '(besti, bestj, bestsize) ←
    grow_right false (ahi - (besti + bestsize)) besti bestj bestsize;
  '(besti, bestj, bestsize) ← grow_left true besti bestj bestsize;
  grow_right true (ahi - (besti + bestsize)) besti bestj bestsize.
End FLM.

(** *** [get_matching_blocks] *)

(** The [while queue:] loop; [queue.pop()] takes the last entry, so the
    queue is kept with its last entry first. *)
Fixpoint blocks_loop (a b : list E) (b2j : gmap E (list nat)) (fuel : nat)
    (queue : list (nat * nat * nat * nat)) (matching_blocks : list Match)
  : option (list Match) :=
  match fuel with
  | 0 => None
  | S fuel' =>
      match queue with
      | [] => Some matching_blocks
      | (alo, ahi, blo, bhi) :: queue' =>
          x ← find_longest_match a b b2j alo ahi blo bhi;
          let '(i, j, k) := x in
          if bool_decide (k ≠ 0) then
            let q1 := if bool_decide (alo < i) && bool_decide (blo < j)
                      then (alo, i, blo, j) :: queue' else queue' in
            let q2 := if bool_decide (i + k < ahi) && bool_decide (j + k < bhi)
                      then (i + k, ahi, j + k, bhi) :: q1 else q1 in
            blocks_loop a b b2j fuel' q2 (matching_blocks ++ [x])
          else blocks_loop a b b2j fuel' queue' matching_blocks
      end
  end.

(** Collapsing adjacent equal blocks: the loop over the sorted blocks
    with the pending block [(i1, j1, k1)]. *)
Fixpoint collapse (cur : Match) (blocks : list Match) (non_adjacent : list Match)
  : list Match :=
  let '(i1, j1, k1) := cur in
  match blocks with
  | [] => if bool_decide (k1 ≠ 0) then non_adjacent ++ [cur] else non_adjacent
  | (i2, j2, k2) :: blocks' =>
      if bool_decide (i1 + k1 = i2) && bool_decide (j1 + k1 = j2)
      then collapse (i1, j1, k1 + k2) blocks' non_adjacent
      else collapse (i2, j2, k2) blocks'
             (if bool_decide (k1 ≠ 0) then non_adjacent ++ [cur] else non_adjacent)
  end.

Definition get_matching_blocks (a b : list E) : option (list Match) :=
  let la := length a in
  let lb := length b in
  matching_blocks ← blocks_loop a b (chain_b b) (2 * la + 2) [(0, la, 0, lb)] [];
  let matching_blocks := merge_sort Match_le matching_blocks in
  Some (collapse (0, 0, 0) matching_blocks [] ++ [(la, lb, 0)]).

(** *** [get_opcodes] *)

Fixpoint opcodes_loop (i j : nat) (blocks : list Match) : list opcode :=
  match blocks with
  | [] => []
  | (ai, bj, size) :: blocks' =>
      let gap :=
        if bool_decide (i < ai) && bool_decide (j < bj) then [(Replace, i, ai, j, bj)]
        else if bool_decide (i < ai) then [(Delete, i, ai, j, bj)]
        else if bool_decide (j < bj) then [(Insert, i, ai, j, bj)]
        else [] in
      let eq :=
        if bool_decide (size ≠ 0) then [(Equal, ai, ai + size, bj, bj + size)]
        else [] in
      gap ++ eq ++ opcodes_loop (ai + size) (bj + size) blocks'
  end.

Definition get_opcodes (a b : list E) : option (list opcode) :=
  opcodes_loop 0 0 <$> get_matching_blocks a b.

End SequenceMatcher.
End Difflib.

(** ** The diff highlight function (lines 165-180) *)

Import PyStr Difflib.

(** A Python slice [l[i1:i2]] with [0 <= i1] and [0 <= i2]. *)
Definition slice {A} (l : list A) (i1 i2 : nat) : list A :=
  take (i2 - i1) (drop i1 l).

Definition DEL_OPEN : list ascii := lit "<del>".
Definition DEL_CLOSE : list ascii := lit "</del>".
Definition INS_OPEN : list ascii := lit "<ins>".
Definition INS_CLOSE : list ascii := lit "</ins>".

(** [f"<del>{' '.join(ws)}</del>"] and its [<ins>] twin. *)
Definition wrap (op cl : list ascii) (ws : list (list ascii)) : list ascii :=
  op ++ join SP ws ++ cl.

(** The body of [for tag, i1, i2, j1, j2 in sm.get_opcodes()]. *)
Fixpoint highlight_loop (a_words b_words : list (list ascii)) (ops : list opcode)
    (a_hl b_hl : list (list ascii)) : list (list ascii) * list (list ascii) :=
  match ops with
  | [] => (a_hl, b_hl)
  | (tg, i1, i2, j1, j2) :: ops' =>
      match tg with
      | Equal =>
          highlight_loop a_words b_words ops'
            (a_hl ++ slice a_words i1 i2) (b_hl ++ slice b_words j1 j2)
      | Delete =>
          highlight_loop a_words b_words ops'
            (a_hl ++ [wrap DEL_OPEN DEL_CLOSE (slice a_words i1 i2)]) b_hl
      | Insert =>
          highlight_loop a_words b_words ops'
            a_hl (b_hl ++ [wrap INS_OPEN INS_CLOSE (slice b_words j1 j2)])
      | Replace =>
          highlight_loop a_words b_words ops'
            (a_hl ++ [wrap DEL_OPEN DEL_CLOSE (slice a_words i1 i2)])
            (b_hl ++ [wrap INS_OPEN INS_CLOSE (slice b_words j1 j2)])
      end
  end.

Definition get_text_diff_v2_highlight (a b : list ascii)
  : option (list ascii * list ascii) :=
  let a_words := split a in
  let b_words := split b in
  ops ← get_opcodes a_words b_words;
  let '(a_hl, b_hl) := highlight_loop a_words b_words ops [] [] in
  Some (join SP a_hl, join SP b_hl).

Definition show (r : option (list ascii * list ascii)) : option (string * string) :=
  (λ p, (string_of_list_ascii p.1, string_of_list_ascii p.2)) <$> r.


(** ** Python values *)

Module Py.

(** The values that reach the session store and the entries: what
    [json.load] produces, which is also what the widgets return. *)
#[warnings="-register-all"]
Inductive val :=
  | VNone
  | VBool (b : bool)
  | VInt (z : Z)
  | VStr (s : string)
  | VList (l : list val)
  | VDict (kvs : list (string * val)).

(** [bool(v)] *)
Definition truthy (v : val) : bool :=
  match v with
  | VNone => false
  | VBool b => b
  | VInt z => negb (z =? 0)%Z
  | VStr s => negb (String.eqb s "")
  | VList l => match l with [] => false | _ => true end
  | VDict kvs => match kvs with [] => false | _ => true end
  end.

(** [v == s] for a string literal [s] *)
Definition is_str (v : val) (s : string) : bool :=
  match v with
  | VStr s' => String.eqb s' s
  | _ => false
  end.

(** A [dict] with string keys keeps its keys in insertion order. *)
Fixpoint dict_get (k : string) (kvs : list (string * val)) : option val :=
  match kvs with
  | [] => None
  | (k', v) :: kvs' => if String.eqb k' k then Some v else dict_get k kvs'
  end.

(** [d[k] = v] *)
Fixpoint dict_set (k : string) (v : val) (kvs : list (string * val))
  : list (string * val) :=
  match kvs with
  | [] => [(k, v)]
  | (k', v') :: kvs' =>
      if String.eqb k' k then (k, v) :: kvs' else (k', v') :: dict_set k v kvs'
  end.

(** [d.setdefault(k, v)] *)
Definition dict_setdefault (k : string) (v : val) (kvs : list (string * val))
  : list (string * val) :=
  match dict_get k kvs with
  | Some _ => kvs
  | None => kvs ++ [(k, v)]
  end.

(** [k.startswith(p)] on keys *)
Fixpoint key_startswith (k p : string) {struct p} : bool :=
  match p, k with
  | EmptyString, _ => true
  | String c p', String d k' => Ascii.eqb c d && key_startswith k' p'
  | String _ _, EmptyString => false
  end.

(** [s.strip()] *)
Fixpoint lstrip (s : list ascii) : list ascii :=
  match s with
  | [] => []
  | c :: s' => if PyStr.isspace c then lstrip s' else s
  end.

Definition strip (s : string) : string :=
  string_of_list_ascii (rev (lstrip (rev (lstrip (list_ascii_of_string s))))).

(** [l.index(x)]: the first position of [x]; [None] is [ValueError]. *)
Fixpoint list_index `{EqDecision A} (x : A) (l : list A) : option nat :=
  match l with
  | [] => None
  | y :: l' => if decide (y = x) then Some 0 else S <$> list_index x l'
  end.

End Py.

Import Py.

(** ** Dataset loading (lines 30-53) *)

Module Loader.

Inductive load_error :=
  | FileNotFoundError  (* [open(path)] *)
  | JSONDecodeError
  | NotIterable      (* [enumerate] of a number, a boolean or [None] *)
  | NotADict.        (* [entry.setdefault] on something else than a dict *)

(** [list(raw.values()) if isinstance(raw, dict) else raw].  A string
    would be iterated by characters and then fail at [setdefault]. *)
Definition entries_of (raw : val) : load_error + list val :=
  match raw with
  | VDict kvs => inr (kvs.*2)
  | VList l => inr l
  | VStr EmptyString => inr []
  | VStr _ => inl NotADict
  | _ => inl NotIterable
  end.

(** [for index, entry in enumerate(entries): entry.setdefault('uid', uid index)] *)
Fixpoint assign_uids (uid : nat → string) (index : nat) (entries : list val)
  : load_error + list val :=
  match entries with
  | [] => inr []
  | VDict kvs :: entries' =>
      match assign_uids uid (S index) entries' with
      | inr rest => inr (VDict (dict_setdefault "uid" (VStr (uid index)) kvs) :: rest)
      | inl e => inl e
      end
  | _ :: _ => inl NotADict
  end.

(** An uploaded file: its name, the position of its read pointer and its
    bytes ([.name], [.tell()], [.getvalue()]). *)
Record uploaded_file := UploadedFile {
  name : string;
  tell : nat;
  getvalue : string;
}.

(** [uploaded_file.read()]: the bytes from the read pointer on. *)
Definition read (f : uploaded_file) : string :=
  substring (tell f) (String.length (getvalue f) - tell f) (getvalue f).

(** The file once read: the pointer is at the end. *)
Definition exhausted (f : uploaded_file) : uploaded_file :=
  UploadedFile (name f) (tell f `max` String.length (getvalue f)) (getvalue f).

(** What [st.cache_data] makes of an uploaded file to look it up: name,
    position and bytes.  (The cache hashes the three; two files are taken
    to have the same key exactly when the three are equal.) *)
Definition file_key (f : uploaded_file) : string * nat * string :=
  (name f, tell f, getvalue f).

Section Loaders.

(** [json.load] on the content of the file: the parser of the standard
    library, [None] when it raises [JSONDecodeError]. *)
Variable json_load : string → option val.

(** Lines 36-41 and 49-53 after the file is read: [uid index] is the uid
    offered to the entry at [index]. *)
Definition load (uid : nat → string) (content : string)
  : load_error + list val :=
  match json_load content with
  | None => inl JSONDecodeError
  | Some raw =>
      match entries_of raw with
      | inr entries => assign_uids uid 0 entries
      | inl e => inl e
      end
  end.

(** The body of [load_entries] (lines 31-41): [fs path] is what
    [open(path)] reads, [None] when there is no such file; the uid of an
    entry without one is [str(index)]. *)
Definition load_entries_body (fs : string → option string) (path : string)
  : load_error + list val :=
  match fs path with
  | None => inl FileNotFoundError
  | Some content => load (λ index, pretty index) content
  end.

(** [load_entries] under [@st.cache_data] (line 30): the cache is looked up
    by the path; a call that returns stores its value, one that raises
    stores nothing. *)
Definition load_entries (cache : gmap string (list val))
    (fs : string → option string) (path : string)
  : (load_error + list val) * gmap string (list val) :=
  match cache !! path with
  | Some entries => (inr entries, cache)
  | None =>
      match load_entries_body fs path with
      | inr entries => (inr entries, <[path := entries]> cache)
      | inl e => (inl e, cache)
      end
  end.

(** The body of [load_entries_from_file] (lines 44-53): the uid is
    [str(uuid.uuid4())]; [uuid4 index] is the token drawn at the
    [index]-th round of this call. *)
Definition load_entries_from_file_body (uuid4 : nat → string)
    (f : uploaded_file) : load_error + list val :=
  load uuid4 (read f).

(** [load_entries_from_file] under [@st.cache_data] (line 43): the cache is
    looked up by name, position and bytes of the file; on a hit the body
    does not run, so no token is drawn and the file is not read. *)
Definition load_entries_from_file
    (cache : gmap (string * nat * string) (list val))
    (uuid4 : nat → string) (f : uploaded_file)
  : (load_error + list val) * gmap (string * nat * string) (list val)
    * uploaded_file :=
  match cache !! file_key f with
  | Some entries => (inr entries, cache, f)
  | None =>
      match load_entries_from_file_body uuid4 f with
      | inr entries => (inr entries, <[file_key f := entries]> cache, exhausted f)
      | inl e => (inl e, cache, exhausted f)
      end
  end.
End Loaders.

(** Lines 76-79: [{e['uid']: e for e in entries}], the list of its keys
    (first occurrences, in order) and the first of them as the current
    entry.  [None]: an entry whose uid is not a string, which the page
    cannot label ([uid[:8]]). *)
Fixpoint index_entries (entries : list val) (by_uid : gmap string val)
    (uids : list string) : option (gmap string val * list string) :=
  match entries with
  | [] => Some (by_uid, uids)
  | VDict kvs :: entries' =>
      match dict_get "uid" kvs with
      | Some (VStr u) =>
          index_entries entries' (<[u := VDict kvs]> by_uid)
            (if bool_decide (u ∈ uids) then uids else uids ++ [u])
      | _ => None
      end
  | _ :: _ => None
  end.

End Loader.

(** ** The page script over an explicit session store *)

Module App.

(** What a run of the script shows or sends. *)
Inductive event :=
  | Rendered (key : string)                 (* a keyed widget was drawn *)
  | Diff (before after : list ascii)        (* the two highlighted texts *)
  | Success (msg : string)                  (* [st.success] *)
  | Info (msg : string)                     (* [st.info] *)
  | InfoNext (entity_id section_name : val) (* the "Ready to move" notice *)
  | Upload (path : string) (payload : val). (* [blob.upload_from_file] *)

Inductive exn :=
  | KeyError (k : string)
  | IndexError
  | TypeError
  | ValueError
  | AttributeError
  | UploadError        (* whatever the storage client raises *)
  | RerunException     (* [st.rerun()] *)
  | StopException.     (* [st.stop()] *)

(** [st.session_state] holds the form keys in [session_state]; its keys
    [entries_by_uid], [uids] and [current_uid], which no deletion loop of
    the script matches, are fields of their own. *)
Record world := World {
    session_state : gmap string val;
    entries_by_uid : gmap string val;
    uids : list string;
    current_uid : option string;
  }.

(** A run threads the world, may raise, and emits events; the world
    changes made before an exception stay, as in Python. *)
Definition M (A : Type) : Type := world → (exn + A) * world * list event.

Global Instance M_ret : MRet M := λ A x w, (inr x, w, []).

Global Instance M_bind : MBind M := λ A B f m w,
  match m w with
  | (inr x, w1, e1) =>
      match f x w1 with
      | (r, w2, e2) => (r, w2, e1 ++ e2)
      end
  | (inl e, w1, e1) => (inl e, w1, e1)
  end.

Definition raise {A} (e : exn) : M A := λ w, (inl e, w, []).
Definition emit (ev : event) : M unit := λ w, (inr (), w, [ev]).
Definition get_world : M world := λ w, (inr w, w, []).

Definition update_state (f : gmap string val → gmap string val) : M unit :=
  λ w, (inr (), World (f (session_state w)) (entries_by_uid w) (uids w)
                  (current_uid w), []).

(** [st.session_state.get(key)] *)
Definition state_get (key : string) : M (option val) :=
  w ← get_world; mret (session_state w !! key).

(** [st.session_state[key]] *)
Definition state_item (key : string) : M val :=
  v ← state_get key;
  match v with
  | Some v => mret v
  | None => raise (KeyError key)
  end.

(** [st.session_state[key] = v] *)
Definition state_set (key : string) (v : val) : M unit :=
  update_state (insert key v).

(** [st.session_state.setdefault(key, v)] *)
Definition state_setdefault (key : string) (v : val) : M unit :=
  update_state (λ ss, match ss !! key with Some _ => ss | None => <[key := v]> ss end).

(** [for k in list(st.session_state.keys()): if p k: del st.session_state[k]] *)
Definition state_delete_if (p : string → bool) : M unit :=
  update_state (filter (λ kv, p kv.1 = false)).

Definition set_current_uid (uid : string) : M unit :=
  λ w, (inr (), World (session_state w) (entries_by_uid w) (uids w) (Some uid), []).

(** [entries_by_uid[uid]] *)
Definition entry_item (uid : string) : M val :=
  w ← get_world;
  match entries_by_uid w !! uid with
  | Some e => mret e
  | None => raise (KeyError uid)
  end.

Definition entry_store (uid : string) (e : val) : M unit :=
  λ w, (inr (), World (session_state w) (<[uid := e]> (entries_by_uid w)) (uids w)
                  (current_uid w), []).

(** Lines 75-80: the store after a successful upload. *)
Definition start (entries : list val) : option world :=
  '(by_uid, uids) ← Loader.index_entries entries ∅ [];
  Some (World ∅ by_uid uids (head uids)).

(** *** Widgets

      A keyed widget takes its value from the session store when its key
      is there already, and otherwise stores and returns its default. *)

Definition widget (key : string) (default : val) : M val :=
  emit (Rendered key);;
  state_setdefault key default;;
  state_item key.

Definition checkbox (key : string) : M val := widget key (VBool false).

Definition text_input (key : string) : M val := widget key (VStr "").

(** [st.radio(.., options, key=key, index=index)]: a stored [None] is an
    empty selection and is returned as such; a stored value that is not an
    option is refused. *)
Definition radio (key : string) (options : list string) (index : option nat)
  : M val :=
  v ← widget key (match index with
                  | Some i => default VNone (VStr <$> options !! i)
                  | None => VNone
                  end);
  match v with
  | VNone => mret VNone
  | VStr s => if bool_decide (s ∈ options) then mret v else raise ValueError
  | _ => raise ValueError
  end.

(** [st.button(.., key=key)]: true in the run its click started. *)
Definition button (clicked : option string) (key : string) : M bool :=
  emit (Rendered key);;
  let b := bool_decide (clicked = Some key) in
  state_set key (VBool b);;
  mret b.

(** *** Lines 107-129: the sidebar *)

(** Lines 122-124 *)
Definition selection_reset_key (k : string) : bool :=
  key_startswith k "q" || key_startswith k "claims_"
  || key_startswith k "review_submitted".

(** Lines 113-117: [format_func], which the select box calls on an option
    to label it; the label needs the option's entry and its [entity_id]. *)
Definition format_func (uid : string) : M unit :=
  entry ← entry_item uid;
  match entry with
  | VDict kvs =>
      match dict_get "entity_id" kvs with
      | Some _ => mret ()
      | None => raise (KeyError "entity_id")
      end
  | _ => raise TypeError
  end.

(** The select box labels every option when it is drawn. *)
Fixpoint format_options (options : list string) : M unit :=
  match options with
  | [] => mret ()
  | uid :: options' => format_func uid;; format_options options'
  end.

(** [new_selection] is the option picked in the select box. *)
Definition select_entry (new_selection : string) : M string :=
  w ← get_world;
  match current_uid w with
  | None => raise StopException
  | Some selection =>
      match list_index selection (uids w) with
      | None =>
          (* [not uids] stops the run at line 103; line 110 is [uids.index] *)
          if bool_decide (uids w = []) then raise StopException
          else raise ValueError
      | Some sel_index =>
          format_options (uids w);;
          if bool_decide (new_selection ≠ selection) then
            state_delete_if selection_reset_key;;
            set_current_uid new_selection;;
            mret new_selection
          else mret selection
      end
  end.

(** *** Lines 151-192: header and diff *)

Definition as_text (v : option val) : M (list ascii) :=
  match v with
  | None => mret []
  | Some (VStr s) => mret (list_ascii_of_string s)
  | Some _ => raise AttributeError
  end.

Definition show_entry (selection : string) : M unit :=
  entry ← entry_item selection;
  match entry with
  | VDict kvs =>
      match dict_get "entity_id" kvs with
      | None => raise (KeyError "entity_id")
      | Some _ =>
          orig ← as_text (dict_get "original_section" kvs);
          upd ← as_text (dict_get "agent_updated_section" kvs);
          match get_text_diff_v2_highlight orig upd with
          | Some (a_hl, b_hl) => emit (Diff a_hl b_hl)
          | None => raise ValueError
          end
      end
  | _ => raise TypeError
  end.

(** *** Lines 194-242: question 1 *)

(** Lines 199-203: the prompts of the entry, or the three built in. *)
Definition default_questions : val :=
  VList
    [ VStr "Question 1: Provided above is a suggested edit for the Wikipedia article. Please identify any errors with the suggested edit (select all that apply)";
      VStr "Question 2: Would you (1) accept, (2) accept w/ revision, and (3) reject the suggested edit above?";
      VStr "Question 3: Was the human edit placed in the correct section of the Wikipedia page?" ].

Definition question_texts (entry : val) : M val :=
  match entry with
  | VDict kvs => mret (default default_questions (dict_get "questions" kvs))
  | _ => raise AttributeError
  end.

(** [v[i]] for an index [i]: an item of a list, a character of a string;
    a dict that [json.load] built has string keys only, so an index is
    never one of them; nothing else can be subscripted. *)
Definition subscript (v : val) (i : nat) : exn + val :=
  match v with
  | VList l => match l !! i with Some x => inr x | None => inl IndexError end
  | VStr s =>
      match String.get i s with
      | Some c => inr (VStr (String c EmptyString))
      | None => inl IndexError
      end
  | VDict _ => inl (KeyError (pretty i))
  | _ => inl TypeError
  end.

(** [st.markdown(f".. {q_texts[i]} ..")] (lines 221, 281 and 288) *)
Definition prompt (q_texts : val) (i : nat) : M unit :=
  match subscript q_texts i with
  | inr _ => mret ()
  | inl e => raise e
  end.

Definition q1_options : list (string * string) :=
  [ ("style", "Stylistic/clarity: Phrasing redundant or tone is too informal");
    ("minor_fix", "Minor factual fix: Small date/number correction needed");
    ("formatting", "Wikipedia Formatting: Text in the human edit is not formatted properly");
    ("citation", "Missing citation(s): One or more facts in the edit lack a reference");
    ("subjective", "Subjective: Opinion or superlative without attribution (“most unexpected”)");
    ("duplicate", "Duplicate: Overlaps substantially with another accepted fact.");
    ("insignificant", "Insignificant: Majority of the edit is not worthy of being included in Wikipedia");
    ("irrelevant", "Irrelevant: The facts presented in the edit are not relevant for the entity");
    ("policy", "Policy violation: Conflict with WP:OR, WP:NPOV, etc.");
    ("other", "Other:") ].

Definition q1_key_prefix (selection : string) : string :=
  "q1_" +:+ substring 0 8 selection.

(** The loop of lines 225-231. *)
Fixpoint q1_checkboxes (prefix : string) (options : list (string * string))
    (selected_q1_options : list val) (show_other_text : bool)
  : M (list val * bool) :=
  match options with
  | [] => mret (selected_q1_options, show_other_text)
  | (subkey, label) :: options' =>
      checked ← checkbox (prefix +:+ "_" +:+ subkey);
      if truthy checked
      then q1_checkboxes prefix options' (selected_q1_options ++ [VStr label])
             (show_other_text || String.eqb subkey "other")
      else q1_checkboxes prefix options' selected_q1_options show_other_text
  end.

(** Lines 195-242 for the current [entry]; the prompts are handed on. *)
Definition question1 (entry : val) (selection : string) : M val :=
  state_setdefault "q1" VNone;;
  state_setdefault "q3" VNone;;
  q_texts ← question_texts entry;
  let prefix := q1_key_prefix selection in
  prompt q_texts 0;;
  '(selected_q1_options, show_other_text) ←
    q1_checkboxes prefix q1_options [] false;
  selected_q1_options ←
    (if show_other_text : bool then
       other_text ← text_input (prefix +:+ "_other_text");
       match other_text with
       | VStr s =>
           let stripped := strip s in
           if truthy (VStr stripped)
           then mret (selected_q1_options
                      ++ [VStr ("Other (Please specify reason below): " +:+ stripped)])
           else mret selected_q1_options
       | _ => raise AttributeError
       end
     else mret selected_q1_options);
  state_set "q1" (match selected_q1_options with
                  | [] => VNone
                  | _ => VList selected_q1_options
                  end);;
  mret q_texts.

(** *** Lines 280-282: question 2 *)

Definition q2_options : list string := ["Accept"; "Accept w/ Revision"; "Reject"].

Definition question2 (q_texts : val) : M unit :=
  q1 ← state_item "q1";
  if truthy q1
  then prompt q_texts 1;; radio "q2" q2_options None;; mret ()
  else mret ().

(** *** Lines 287-345: question 3, submission, next step *)

Definition q3_options : list string := ["Yes"; "If No, which section:"].

(** Lines 294-323.  [upload_ok] tells whether the storage client accepts
    the upload or raises. *)
Definition submit_review (selection : string) (upload_ok : bool) : M unit :=
  q1 ← state_item "q1";
  q2 ← state_item "q2";
  q3 ← state_item "q3";
  q3_section ← state_get "q3_section";
  let review := VDict [("q1", q1); ("q2", q2); ("q3", q3);
                       ("q3_section", default VNone q3_section)] in
  entry ← entry_item selection;
  match entry with
  | VDict kvs =>
      let entry := VDict (dict_set "review" review kvs) in
      entry_store selection entry;;
      emit (Upload ("test/" +:+ selection +:+ ".json") entry);;
      (if upload_ok then mret () else raise UploadError);;
      emit (Success "Review submitted and saved to GCS.");;
      state_set "review_submitted" (VBool true)
  | _ => raise TypeError
  end.

(** Lines 327-328: [None] is the [ValueError] of [uids.index]. *)
Definition next_idx `{EqDecision A} (uids : list A) (selection : A) : option nat :=
  (λ i, (i + 1) `mod` length uids) <$> list_index selection uids.

Definition next_uid `{EqDecision A} (uids : list A) (selection : A) : option A :=
  i ← next_idx uids selection; uids !! i.

(** Lines 335-340 *)
Definition go_next_key (k : string) : bool :=
  key_startswith k "q2_" || key_startswith k "q3"
  || key_startswith k "review_submitted" || String.eqb k "q1".

(** Lines 326-345 *)
Definition next_step (selection : string) (clicked : option string) : M unit :=
  w ← get_world;
  match next_uid (uids w) selection with
  | None => raise ValueError
  | Some next =>
      next_entry ← entry_item next;
      match next_entry with
      | VDict kvs =>
          match dict_get "entity_id" kvs with
          | None => raise (KeyError "entity_id")
          | Some entity_id =>
              emit (InfoNext entity_id
                      (default (VStr "") (dict_get "section_name" kvs)));;
              go ← button clicked "go_next";
              if go : bool then
                state_delete_if go_next_key;;
                set_current_uid next;;
                raise RerunException
              else
                stay ← button clicked "stay";
                if stay : bool
                then emit (Info "You can review or revise your answers.")
                else mret ()
          end
      | _ => raise TypeError
      end
  end.

Definition question3 (q_texts : val) (selection : string)
    (clicked : option string) (upload_ok : bool) : M unit :=
  q1 ← state_item "q1";
  answered ← (if truthy q1 then q2 ← state_item "q2"; mret (truthy q2)
              else mret false);
  if answered : bool then
    prompt q_texts 2;;
    radio "q3" q3_options (Some 0);;
    q3 ← state_get "q3";
    (if is_str (default VNone q3) "If No, which section:"
     then text_input "q3_section";; mret () else mret ());;
    submitted ← button clicked "submit_review";
    (if submitted : bool then submit_review selection upload_ok else mret ());;
    review_submitted ← state_get "review_submitted";
    if truthy (default VNone review_submitted)
    then next_step selection clicked
    else mret ()
  else mret ().

(** Lines 194-345 for the entry [selection], which line 129 looks up. *)
Definition form (selection : string) (clicked : option string)
    (upload_ok : bool) : M unit :=
  entry ← entry_item selection;
  q_texts ← question1 entry selection;
  question2 q_texts;;
  question3 q_texts selection clicked upload_ok.

(** One run of the page from line 107 on. *)
Definition page (new_selection : string) (clicked : option string)
    (upload_ok : bool) : M unit :=
  selection ← select_entry new_selection;
  show_entry selection;;
  form selection clicked upload_ok.

End App.

(** * Properties *)

(** ** Bounds of [find_longest_match] *)

Section FindLongestMatchBounds.
Context {E : Type} `{Countable E}.
Variables (a b : list E) (b2j : gmap E (list nat)).
Variables (alo ahi blo bhi : nat).
Hypothesis Ha : alo ≤ ahi ≤ length a.
Hypothesis Hb : blo ≤ bhi ≤ length b.

(** A block that lies inside the window [alo, ahi) x [blo, bhi). *)
Definition in_window (x : Match) : Prop :=
  let '(i, j, k) := x in alo ≤ i ∧ i + k ≤ ahi ∧ blo ≤ j ∧ j + k ≤ bhi.

(** What is known of the lengths stored for the row before row [i]. *)
Definition row_inv (i : nat) (j2len : gmap nat nat) : Prop :=
  ∀ j k, j2len !! j = Some k → blo ≤ j ∧ k + alo ≤ i ∧ k + blo ≤ S j.

Lemma row_inv_empty i : row_inv i ∅.
Proof. intros j k Hjk. by rewrite lookup_empty in Hjk. Qed.

Lemma row_bounds i j2len js new best new' best' :
  alo ≤ i < ahi →
  row_inv i j2len → row_inv (S i) new → in_window best →
  row blo bhi i j2len js new best = (new', best') →
  row_inv (S i) new' ∧ in_window best'.
Proof.
  intros Hi Hprev. revert new best.
  induction js as [|j js IH]; intros new best Hnew Hbest Hrow; simpl in Hrow.
  { by simplify_eq. }
  case_bool_decide as Hlo; [by eapply IH|].
  case_bool_decide as Hhi; [by simplify_eq|].
  assert (Hk : j2lenget j2len j + 1 + alo ≤ S i ∧ j2lenget j2len j + 1 + blo ≤ S j).
  { destruct j as [|j']; simpl; [lia|].
    destruct (j2len !! j') as [k'|] eqn:Hj'; simpl; [|lia].
    destruct (Hprev _ _ Hj') as (? & ? & ?). lia. }
  eapply IH; [| |exact Hrow].
  - intros j0 k0. destruct (decide (j = j0)) as [->|Hne].
    + rewrite lookup_insert_eq. intros [= <-]. lia.
    + rewrite lookup_insert_ne by done. apply Hnew.
  - case_bool_decide; [|done]. simpl. lia.
Qed.

Lemma rows_bounds n i j2len best :
  alo ≤ i → i + n ≤ ahi →
  row_inv i j2len → in_window best →
  ∃ best', rows a b2j blo bhi (seq i n) j2len best = Some best' ∧ in_window best'.
Proof.
  revert i j2len best.
  induction n as [|n IH]; intros i j2len best Hlo Hhi Hj2len Hbest; simpl.
  { by eexists. }
  destruct (lookup_lt_is_Some_2 a i) as [ai Hai]; [lia|].
  rewrite Hai. simpl.
  destruct (row blo bhi i j2len (default [] (b2j !! ai)) ∅ best)
    as [new' best'] eqn:Hrow.
  eapply row_bounds in Hrow as [Hnew' Hbest'];
    [|lia|done|apply row_inv_empty|done].
  apply IH; [lia|lia| |done].
  intros j k Hjk. destruct (Hnew' _ _ Hjk) as (? & ? & ?). lia.
Qed.

Lemma grow_left_bounds junk besti bestj bestsize :
  in_window (besti, bestj, bestsize) →
  ∃ x, grow_left a b alo blo junk besti bestj bestsize = Some x ∧ in_window x.
Proof.
  revert bestj bestsize.
  induction besti as [|i' IH]; intros bestj bestsize Hw; simpl.
  { by eexists. }
  destruct (bool_decide (alo < S i') && bool_decide (blo < bestj)) eqn:Hg;
    [|by eexists].
  apply andb_true_iff in Hg as [Hg1%bool_decide_eq_true Hg2%bool_decide_eq_true].
  simpl in Hw.
  destruct (lookup_lt_is_Some_2 b (bestj - 1)) as [bj Hbj]; [lia|].
  destruct (lookup_lt_is_Some_2 a i') as [ai Hai]; [lia|].
  rewrite Hbj. simpl. case_bool_decide; [|by eexists].
  rewrite Hai. simpl. case_bool_decide; [|by eexists].
  apply IH. simpl. lia.
Qed.

Lemma grow_right_bounds junk n besti bestj bestsize :
  in_window (besti, bestj, bestsize) →
  ∃ x, grow_right a b ahi bhi junk n besti bestj bestsize = Some x ∧ in_window x.
Proof.
  revert bestsize.
  induction n as [|n IH]; intros bestsize Hw; simpl.
  { by eexists. }
  destruct (bool_decide (besti + bestsize < ahi)
            && bool_decide (bestj + bestsize < bhi)) eqn:Hg; [|by eexists].
  apply andb_true_iff in Hg as [Hg1%bool_decide_eq_true Hg2%bool_decide_eq_true].
  simpl in Hw.
  destruct (lookup_lt_is_Some_2 b (bestj + bestsize)) as [bj Hbj]; [lia|].
  destruct (lookup_lt_is_Some_2 a (besti + bestsize)) as [ai Hai]; [lia|].
  rewrite Hbj. simpl. case_bool_decide; [|by eexists].
  rewrite Hai. simpl. case_bool_decide; [|by eexists].
  apply IH. simpl. lia.
Qed.

Lemma find_longest_match_bounds :
  ∃ x, find_longest_match a b b2j alo ahi blo bhi = Some x ∧ in_window x.
Proof.
  unfold find_longest_match.
  destruct (rows_bounds (ahi - alo) alo ∅ (alo, blo, 0))
    as ([[i1 j1] k1] & -> & H1); [lia|lia|apply row_inv_empty|simpl; lia|].
  simpl.
  destruct (grow_left_bounds false i1 j1 k1 H1) as ([[i2 j2] k2] & -> & H2).
  simpl.
  destruct (grow_right_bounds false (ahi - (i2 + k2)) i2 j2 k2 H2)
    as ([[i3 j3] k3] & -> & H3).
  simpl.
  destruct (grow_left_bounds true i3 j3 k3 H3) as ([[i4 j4] k4] & -> & H4).
  simpl.
  apply grow_right_bounds, H4.
Qed.
End FindLongestMatchBounds.

(** ** Pairwise relations on lists *)

Section Pairwise.
Context {A : Type} (R : relation A).

Lemma FOP_cons_inv x l :
  ForallOrdPairs R (x :: l) → Forall (R x) l ∧ ForallOrdPairs R l.
Proof. by inversion 1. Qed.

Lemma pairwise_app l1 l2 :
  ForallOrdPairs R l1 → ForallOrdPairs R l2 →
  (∀ x y, x ∈ l1 → y ∈ l2 → R x y) →
  ForallOrdPairs R (l1 ++ l2).
Proof.
  induction l1 as [|x l1 IH]; intros H1 H2 H12; simpl; [done|].
  inversion_clear H1 as [|? ? Hx H1'].
  constructor.
  - apply Forall_app. split; [done|].
    apply Forall_forall. intros y Hy. apply H12; [left|done].
  - apply IH; [done..|]. intros x' y Hx' Hy. apply H12; [by right|done].
Qed.

Lemma pairwise_perm `{!Symmetric R} l l' :
  l ≡ₚ l' → ForallOrdPairs R l → ForallOrdPairs R l'.
Proof.
  induction 1 as [|x l l' Hp IH|x y l|l l' l'' _ IH1 _ IH2]; intros HF.
  - done.
  - inversion_clear HF as [|? ? Hx HF']. constructor; [by rewrite <-Hp|auto].
  - inversion_clear HF as [|? ? Hy HF'].
    inversion_clear HF' as [|? ? Hx HF''].
    inversion_clear Hy as [|? ? Hyx Hy'].
    repeat constructor; done.
  - auto.
Qed.

Lemma pairwise_fmap {B} (f : B → A) l :
  ForallOrdPairs R (f <$> l) → ForallOrdPairs (λ x y, R (f x) (f y)) l.
Proof.
  induction l as [|x l IH]; rewrite ?fmap_cons; intros HF; [constructor|].
  apply FOP_cons_inv in HF as [Hx HF'].
  constructor; [|auto]. by apply (proj1 (Forall_fmap _ _ _)) in Hx.
Qed.
End Pairwise.

(** ** The matching blocks form an increasing chain *)

Section MatchingBlocks.
Context {E : Type} `{Countable E}.
Variables (a b : list E) (b2j : gmap E (list nat)).

(** A window [(alo, ahi, blo, bhi)] of the queue, and a block seen as the
    window it covers. *)
Definition window_of (x : Match) : nat * nat * nat * nat :=
  let '(i, j, k) := x in (i, i + k, j, j + k).

Definition wf_window (w : nat * nat * nat * nat) : Prop :=
  let '(alo, ahi, blo, bhi) := w in
  alo ≤ ahi ≤ length a ∧ blo ≤ bhi ≤ length b.

Definition window_before (w1 w2 : nat * nat * nat * nat) : Prop :=
  let '(_, ahi, _, bhi) := w1 in
  let '(alo, _, blo, _) := w2 in
  ahi ≤ alo ∧ bhi ≤ blo.

Definition apart (w1 w2 : nat * nat * nat * nat) : Prop :=
  window_before w1 w2 ∨ window_before w2 w1.

Definition inside (w1 w2 : nat * nat * nat * nat) : Prop :=
  let '(alo1, ahi1, blo1, bhi1) := w1 in
  let '(alo2, ahi2, blo2, bhi2) := w2 in
  alo2 ≤ alo1 ∧ ahi1 ≤ ahi2 ∧ blo2 ≤ blo1 ∧ bhi1 ≤ bhi2.

Global Instance apart_sym : Symmetric apart.
Proof. intros w1 w2 [?|?]; [by right|by left]. Qed.

Lemma apart_inside w1 w2 w : inside w1 w2 → apart w2 w → apart w1 w.
Proof.
  destruct w1 as [[[??]?]?], w2 as [[[??]?]?], w as [[[??]?]?].
  unfold apart, inside, window_before. lia.
Qed.

Definition block_ok (x : Match) : Prop := wf_window (window_of x) ∧ x.2 ≠ 0.

(** The loop budget: every round lowers this weight of the queue. *)
Definition weight (queue : list (nat * nat * nat * nat)) : nat :=
  sum_list_with (λ w, let '(alo, ahi, _, _) := w in 2 * (ahi - alo) + 1) queue.

Lemma weight_cons alo ahi blo bhi queue :
  weight ((alo, ahi, blo, bhi) :: queue) = 2 * (ahi - alo) + 1 + weight queue.
Proof. done. Qed.

Lemma weight_app q1 q2 : weight (q1 ++ q2) = weight q1 + weight q2.
Proof. apply sum_list_with_app. Qed.

Lemma blocks_loop_inv fuel queue blocks :
  Forall wf_window queue → Forall block_ok blocks →
  ForallOrdPairs apart (queue ++ (window_of <$> blocks)) →
  weight queue < fuel →
  ∃ blocks', blocks_loop a b b2j fuel queue blocks = Some blocks'
    ∧ Forall block_ok blocks'
    ∧ ForallOrdPairs apart (window_of <$> blocks').
Proof.
  revert queue blocks.
  induction fuel as [|fuel IH]; intros queue blocks Hq Hbl Hp Hfuel; [lia|].
  destruct queue as [|[[[alo ahi] blo] bhi] queue']; simpl.
  { by eexists. }
  apply Forall_cons in Hq as [[Hwa Hwb] Hq].
  destruct (find_longest_match_bounds a b b2j alo ahi blo bhi Hwa Hwb)
    as ([[i j] k] & -> & Hi & Hik & Hj & Hjk).
  simpl. inversion_clear Hp as [|? ? Hhd Hp'].
  rewrite weight_cons in Hfuel.
  case_bool_decide as Hk; [|apply IH; [done..|lia]].
  set (c1 := bool_decide (alo < i) && bool_decide (blo < j)).
  set (c2 := bool_decide (i + k < ahi) && bool_decide (j + k < bhi)).
  set (pre := (if c2 then [(i + k, ahi, j + k, bhi)] else [])
              ++ (if c1 then [(alo, i, blo, j)] else [])).
  assert (Hq2 : (if c2 then (i + k, ahi, j + k, bhi)
                            :: (if c1 then (alo, i, blo, j) :: queue' else queue')
                 else if c1 then (alo, i, blo, j) :: queue' else queue')
                = pre ++ queue') by (unfold pre; by destruct c1, c2).
  rewrite Hq2. clear Hq2.
  assert (Hin : Forall (λ w, inside w (alo, ahi, blo, bhi))
                  (pre ++ [window_of (i, j, k)])).
  { unfold pre. simpl.
    destruct c1, c2; simpl; repeat constructor; lia. }
  apply IH.
  - apply Forall_app. split; [|done]. unfold pre.
    destruct c1, c2; simpl; repeat constructor; lia.
  - apply Forall_app. split; [done|].
    apply Forall_singleton. split; [simpl; lia|done].
  - eapply pairwise_perm; [apply _| |].
    2:{ apply (pairwise_app apart (pre ++ [window_of (i, j, k)])
                 (queue' ++ (window_of <$> blocks))); [|done|].
        - unfold pre, apart, window_before. simpl.
          destruct c1, c2; simpl; repeat constructor; lia.
        - intros w1 w2 Hw1 Hw2.
          eapply apart_inside; [by eapply Forall_forall in Hin|].
          by eapply Forall_forall in Hhd. }
    rewrite fmap_app. simpl. solve_Permutation.
  - assert (weight pre + 1 ≤ 2 * (ahi - alo) + 1) as Hw.
    { unfold pre, c1, c2.
      repeat case_bool_decide; simpl; rewrite ?weight_cons;
        change (weight []) with 0; lia. }
    rewrite weight_app. lia.
Qed.
End MatchingBlocks.

Section Chain.
Variables (la lb : nat).

(** Blocks in increasing order that start at or after [(i, j)] and end at
    or before [(la, lb)]. *)
Fixpoint chain (i j : nat) (l : list Match) : Prop :=
  match l with
  | [] => i ≤ la ∧ j ≤ lb
  | (ai, bj, size) :: l' => i ≤ ai ∧ j ≤ bj ∧ chain (ai + size) (bj + size) l'
  end.

Lemma chain_mono i j i' j' l : i' ≤ i → j' ≤ j → chain i j l → chain i' j' l.
Proof.
  destruct l as [|[[ai bj] size] l]; simpl; [lia|].
  intros ? ? (? & ? & ?). split_and!; [lia|lia|done].
Qed.

Lemma chain_le i j l : chain i j l → i ≤ la ∧ j ≤ lb.
Proof.
  revert i j. induction l as [|[[ai bj] size] l IH]; simpl; intros i j; [done|].
  intros (? & ? & Hc). apply IH in Hc. lia.
Qed.

Lemma chain_app_drop i j l1 x l2 : chain i j (l1 ++ x :: l2) → chain i j (l1 ++ l2).
Proof.
  revert i j. induction l1 as [|[[ai bj] size] l1 IH]; simpl; intros i j.
  - destruct x as [[ai bj] size]. intros (? & ? & Hc).
    eapply chain_mono; [| |exact Hc]; lia.
  - intros (? & ? & Hc). eauto.
Qed.

Lemma chain_app_merge i j l1 i1 j1 k1 k2 l2 :
  chain i j (l1 ++ (i1, j1, k1) :: (i1 + k1, j1 + k1, k2) :: l2) →
  chain i j (l1 ++ (i1, j1, k1 + k2) :: l2).
Proof.
  revert i j. induction l1 as [|[[ai bj] size] l1 IH]; simpl; intros i j.
  - intros (? & ? & ? & ? & Hc). split_and!; [done..|].
    by rewrite <-!Nat.add_assoc in Hc.
  - intros (? & ? & Hc). eauto.
Qed.

Lemma chain_snoc i j l : chain i j l → chain i j (l ++ [(la, lb, 0)]).
Proof.
  revert i j. induction l as [|[[ai bj] size] l IH]; simpl; intros i j.
  - lia.
  - intros (? & ? & Hc). eauto.
Qed.

Lemma collapse_chain i j cur blocks non_adjacent :
  chain i j (non_adjacent ++ cur :: blocks) →
  chain i j (collapse cur blocks non_adjacent).
Proof.
  revert cur non_adjacent.
  induction blocks as [|[[i2 j2] k2] blocks IH];
    intros [[i1 j1] k1] non_adjacent Hc; simpl.
  - case_bool_decide; [done|].
    rewrite <-(app_nil_r non_adjacent). by eapply chain_app_drop.
  - destruct (bool_decide (i1 + k1 = i2) && bool_decide (j1 + k1 = j2)) eqn:Hadj.
    + apply andb_true_iff in Hadj
        as [<-%bool_decide_eq_true <-%bool_decide_eq_true].
      by apply IH, chain_app_merge.
    + apply IH. destruct (bool_decide (k1 ≠ 0)).
      * by rewrite <-app_assoc.
      * by eapply chain_app_drop.
Qed.
End Chain.

Global Instance Match_le_total : Total Match_le.
Proof. intros [[i1 j1] k1] [[i2 j2] k2]. unfold Match_le. lia. Qed.

Global Instance Match_le_trans : Transitive Match_le.
Proof. intros [[i1 j1] k1] [[i2 j2] k2] [[i3 j3] k3]. unfold Match_le. lia. Qed.

Section GetMatchingBlocks.
Context {E : Type} `{Countable E}.
Variables (a b : list E).

Definition blocks_apart (x y : Match) : Prop :=
  apart (window_of x) (window_of y).

Global Instance blocks_apart_sym : Symmetric blocks_apart.
Proof. intros x y. unfold blocks_apart. apply apart_sym. Qed.

Lemma sorted_chain i j l :
  i ≤ length a → j ≤ length b →
  StronglySorted Match_le l → ForallOrdPairs blocks_apart l →
  Forall (block_ok a b) l →
  Forall (λ y, i ≤ y.1.1 ∧ j ≤ y.1.2) l →
  chain (length a) (length b) i j l.
Proof.
  revert i j.
  induction l as [|[[ai bj] size] l IH]; intros i j Hi Hj Hs Hp Hok Hlo; simpl.
  { done. }
  apply StronglySorted_inv in Hs as [Hs Hle].
  apply FOP_cons_inv in Hp as [Hap Hp].
  apply Forall_cons in Hok as [[Hw Hk] Hok].
  apply Forall_cons in Hlo as [[? ?] Hlo]. simpl in *.
  split_and!; [done..|].
  apply IH; [lia|lia|done..|].
  apply Forall_forall. intros [[i2 j2] k2] Hy.
  eapply Forall_forall in Hle, Hap; [|done..].
  unfold Match_le, blocks_apart, apart, window_before in *. simpl in *.
  lia.
Qed.

(** [get_matching_blocks] returns (no exception, budget not exhausted) an
    increasing chain of blocks followed by the sentinel [(la, lb, 0)]. *)
Lemma get_matching_blocks_chain :
  ∃ l, get_matching_blocks a b = Some (l ++ [(length a, length b, 0)])
       ∧ chain (length a) (length b) 0 0 l.
Proof.
  unfold get_matching_blocks.
  destruct (blocks_loop_inv a b (chain_b b) (2 * length a + 2)
              [(0, length a, 0, length b)] [])
    as (blocks & -> & Hok & Hp).
  - repeat constructor; simpl; lia.
  - constructor.
  - repeat constructor.
  - rewrite weight_cons. change (weight []) with 0. lia.
  - simpl. eexists. split; [done|].
    apply (collapse_chain _ _ 0 0 (0, 0, 0) _ []). simpl.
    split_and!; [lia..|].
    apply sorted_chain; [lia|lia|..].
    + apply StronglySorted_merge_sort; apply _.
    + eapply pairwise_perm; [apply _|symmetry; apply merge_sort_Permutation|].
      exact (pairwise_fmap apart window_of _ Hp).
    + by rewrite merge_sort_Permutation.
    + apply Forall_forall. intros ? _. lia.
Qed.
End GetMatchingBlocks.

(** ** Shape of the two highlighted word lists *)

(** An entry of [a_hl] (or [b_hl]) is a word copied from an [equal] range or
    one marked group of words. *)
Inductive chunk :=
  | Plain (w : list ascii)
  | Marked (ws : list (list ascii)).

Definition render (op cl : list ascii) (c : chunk) : list ascii :=
  match c with
  | Plain w => w
  | Marked ws => wrap op cl ws
  end.

Definition chunk_words (c : chunk) : list (list ascii) :=
  match c with
  | Plain w => [w]
  | Marked ws => ws
  end.

Definition chunk_ok (c : chunk) : Prop :=
  match c with
  | Plain _ => True
  | Marked ws => ws ≠ []
  end.

Section Slices.
Context {A : Type}.
Implicit Types l : list A.

Lemma slice_same l i : slice l i i = [].
Proof. unfold slice. by rewrite Nat.sub_diag. Qed.

Lemma slice_app l i k m :
  i ≤ k → k ≤ m → slice l i k ++ slice l k m = slice l i m.
Proof.
  intros Hik Hkm. unfold slice.
  replace (drop k l) with (drop (k - i) (drop i l))
    by (rewrite drop_drop; f_equal; lia).
  rewrite take_take_drop. f_equal. lia.
Qed.

Lemma slice_drop l i k : i ≤ k → slice l i k ++ drop k l = drop i l.
Proof.
  intros Hik. unfold slice.
  replace (drop k l) with (drop (k - i) (drop i l))
    by (rewrite drop_drop; f_equal; lia).
  apply take_drop.
Qed.

Lemma slice_nonempty l i k : i < k → k ≤ length l → slice l i k ≠ [].
Proof.
  intros Hik Hk Hnil. apply (f_equal length) in Hnil.
  unfold slice in Hnil. rewrite length_take, length_drop in Hnil.
  simpl in Hnil. lia.
Qed.

Lemma slice_all l : slice l 0 (length l) = l.
Proof. unfold slice. rewrite Nat.sub_0_r. apply firstn_all. Qed.
End Slices.

Lemma render_plain op cl (ws : list (list ascii)) :
  render op cl <$> (Plain <$> ws) = ws.
Proof. induction ws as [|w ws IH]; csimpl; [done|]. by rewrite IH. Qed.

Lemma words_plain (ws : list (list ascii)) :
  concat (chunk_words <$> (Plain <$> ws)) = ws.
Proof. induction ws as [|w ws IH]; csimpl; [done|]. by rewrite IH. Qed.

Lemma chunk_ok_plain (ws : list (list ascii)) : Forall chunk_ok (Plain <$> ws).
Proof. induction ws; simpl; by constructor. Qed.

Section HighlightShape.
Variables (a_words b_words : list (list ascii)).

Local Abbreviation la := (length a_words).
Local Abbreviation lb := (length b_words).

Lemma highlight_loop_app ops1 ops2 a_hl b_hl :
  highlight_loop a_words b_words (ops1 ++ ops2) a_hl b_hl
  = let '(a_hl', b_hl') := highlight_loop a_words b_words ops1 a_hl b_hl in
    highlight_loop a_words b_words ops2 a_hl' b_hl'.
Proof.
  revert a_hl b_hl.
  induction ops1 as [|[[[[[] i1] i2] j1] j2] ops1 IH]; intros a_hl b_hl; simpl;
    [done|apply IH..].
Qed.

(** One matching block: the gap before it, then the block itself. *)
Lemma highlight_block i j ai bj size blocks a_hl b_hl :
  i ≤ ai → j ≤ bj → ai ≤ la → bj ≤ lb →
  ∃ ca cb,
    highlight_loop a_words b_words
      (opcodes_loop i j ((ai, bj, size) :: blocks)) a_hl b_hl
    = highlight_loop a_words b_words
        (opcodes_loop (ai + size) (bj + size) blocks)
        (a_hl ++ (render DEL_OPEN DEL_CLOSE <$> ca))
        (b_hl ++ (render INS_OPEN INS_CLOSE <$> cb))
    ∧ concat (chunk_words <$> ca) = slice a_words i (ai + size)
    ∧ concat (chunk_words <$> cb) = slice b_words j (bj + size)
    ∧ Forall chunk_ok ca ∧ Forall chunk_ok cb.
Proof.
  intros Hi Hj Hai Hbj.
  exists ((if bool_decide (i < ai) then [Marked (slice a_words i ai)] else [])
          ++ (Plain <$> slice a_words ai (ai + size))),
         ((if bool_decide (j < bj) then [Marked (slice b_words j bj)] else [])
          ++ (Plain <$> slice b_words bj (bj + size))).
  split_and!.
  - simpl. rewrite !fmap_app, !render_plain.
    destruct (decide (size = 0)) as [->|Hsz].
    + rewrite !Nat.add_0_r, !slice_same.
      repeat case_bool_decide; try lia; simpl;
        by rewrite ?app_nil_r, ?Nat.add_0_r.
    + repeat case_bool_decide; try lia; simpl; by rewrite <-?app_assoc.
  - rewrite fmap_app, concat_app, words_plain.
    case_bool_decide; simpl.
    + rewrite app_nil_r. apply slice_app; lia.
    + by replace i with ai by lia.
  - rewrite fmap_app, concat_app, words_plain.
    case_bool_decide; simpl.
    + rewrite app_nil_r. apply slice_app; lia.
    + by replace j with bj by lia.
  - apply Forall_app. split; [|apply chunk_ok_plain].
    case_bool_decide; repeat constructor. by apply slice_nonempty.
  - apply Forall_app. split; [|apply chunk_ok_plain].
    case_bool_decide; repeat constructor. by apply slice_nonempty.
Qed.

Lemma highlight_chain l i j a_hl b_hl :
  chain la lb i j l →
  ∃ ca cb,
    highlight_loop a_words b_words
      (opcodes_loop i j (l ++ [(la, lb, 0)])) a_hl b_hl
    = (a_hl ++ (render DEL_OPEN DEL_CLOSE <$> ca),
       b_hl ++ (render INS_OPEN INS_CLOSE <$> cb))
    ∧ concat (chunk_words <$> ca) = drop i a_words
    ∧ concat (chunk_words <$> cb) = drop j b_words
    ∧ Forall chunk_ok ca ∧ Forall chunk_ok cb.
Proof.
  revert i j a_hl b_hl.
  induction l as [|[[ai bj] size] l IH]; intros i j a_hl b_hl Hc.
  - destruct Hc as [Hi Hj].
    destruct (highlight_block i j la lb 0 [] a_hl b_hl)
      as (ca & cb & Heq & Hca & Hcb & Hoka & Hokb); [done..|].
    exists ca, cb. split_and!; [done| | |done..].
    + rewrite Hca, Nat.add_0_r. unfold slice.
      apply take_ge. rewrite length_drop. lia.
    + rewrite Hcb, Nat.add_0_r. unfold slice.
      apply take_ge. rewrite length_drop. lia.
  - destruct Hc as (Hi & Hj & Hc).
    pose proof (chain_le _ _ _ _ _ Hc) as [Hai Hbj].
    destruct (highlight_block i j ai bj size (l ++ [(la, lb, 0)]) a_hl b_hl)
      as (ca & cb & Heq & Hca & Hcb & Hoka & Hokb); [lia..|].
    destruct (IH _ _ (a_hl ++ (render DEL_OPEN DEL_CLOSE <$> ca))
                (b_hl ++ (render INS_OPEN INS_CLOSE <$> cb)) Hc)
      as (ca' & cb' & Heq' & Hca' & Hcb' & Hoka' & Hokb').
    exists (ca ++ ca'), (cb ++ cb').
    split_and!.
    + change (((ai, bj, size) :: l) ++ [(la, lb, 0)])
        with ((ai, bj, size) :: (l ++ [(la, lb, 0)])).
      rewrite Heq, Heq'.
      by rewrite !fmap_app, <-!app_assoc.
    + rewrite fmap_app, concat_app, Hca, Hca'. apply slice_drop. lia.
    + rewrite fmap_app, concat_app, Hcb, Hcb'. apply slice_drop. lia.
    + by apply Forall_app.
    + by apply Forall_app.
Qed.
End HighlightShape.

(** ** [str.replace(pat, '')] on joined text *)

Section Remove.
Variable pat : list ascii.

Lemma startswith_true s : startswith pat s = true ↔ ∃ v, s = pat ++ v.
Proof.
  revert s. induction pat as [|p pat' IH]; intros s; simpl.
  { split; [by exists s|done]. }
  destruct s as [|c s]; [split; [done|by intros [? ?]]|].
  rewrite andb_true_iff, bool_decide_eq_true, IH. split.
  - intros [-> [v ->]]. by exists v.
  - intros [v [= -> ->]]. eauto.
Qed.

Lemma startswith_false s : startswith pat s = false ↔ ¬ ∃ v, s = pat ++ v.
Proof. rewrite <-startswith_true. by destruct (startswith pat s). Qed.

Lemma remove_from_skip u rest :
  remove_from pat (length u) (u ++ rest) = remove_from pat 0 rest.
Proof. induction u as [|c u IH]; simpl; [by destruct rest|done]. Qed.

Lemma remove_pat rest : pat ≠ [] → remove pat (pat ++ rest) = remove pat rest.
Proof.
  intros Hne. unfold remove.
  assert (Hs : startswith pat (pat ++ rest) = true)
    by (apply startswith_true; eauto).
  assert (∃ p pat', pat = p :: pat') as (p & pat' & Hp)
    by (destruct pat; [done|eauto]).
  destruct (pat ++ rest) as [|c s] eqn:Heq.
  { by apply app_eq_nil in Heq as [? _]. }
  cbn [remove_from]. rewrite Hs.
  rewrite Hp in Heq at 1. injection Heq as _ <-.
  replace (length pat - 1) with (length pat') by (rewrite Hp; simpl; lia).
  apply remove_from_skip.
Qed.

(** No occurrence of [pat] starts inside [s] when [rest] follows it. *)
Definition no_match (s rest : list ascii) : Prop :=
  ∀ u v, s = u ++ v → v ≠ [] → startswith pat (v ++ rest) = false.

Lemma remove_no_match s rest :
  no_match s rest → remove pat (s ++ rest) = s ++ remove pat rest.
Proof.
  unfold remove. induction s as [|c s IH]; intros Hnm; [done|].
  rewrite <-app_comm_cons. cbn [remove_from].
  rewrite app_comm_cons, (Hnm [] (c :: s)) by done.
  rewrite <-app_comm_cons. f_equal. apply IH.
  intros u v -> Hv. by apply (Hnm (c :: u) v).
Qed.

Lemma no_match_nil rest : no_match [] rest.
Proof. intros u v Huv Hv. symmetry in Huv. by apply app_eq_nil in Huv as [_ ->]. Qed.

Lemma no_match_app s1 s2 rest :
  no_match s1 (s2 ++ rest) → no_match s2 rest → no_match (s1 ++ s2) rest.
Proof.
  intros H1 H2 u v Huv Hv.
  apply app_eq_app in Huv as [l [[-> ->]|[-> ->]]].
  - destruct l as [|c l].
    + by apply (H2 [] s2).
    + rewrite <-app_assoc. by apply (H1 u (c :: l)).
  - by apply (H2 l v).
Qed.

Lemma no_match_single c rest :
  startswith pat (c :: rest) = false → no_match [c] rest.
Proof.
  intros Hc u v Huv Hv. destruct u as [|c' u].
  - by simplify_eq/=.
  - injection Huv as -> Huv. symmetry in Huv.
    by apply app_eq_nil in Huv as [_ ->].
Qed.

(** A continuation that cannot complete an occurrence begun earlier: it
    is empty or starts with a character that [pat] only has, if at all,
    in first position. *)
Definition safe_rest (rest : list ascii) : Prop :=
  match rest with
  | [] => True
  | c :: _ => c ∉ tail pat
  end.

Lemma no_match_clean w rest :
  ¬ contains pat w → safe_rest rest → no_match w rest.
Proof.
  intros Hw Hrest u v -> Hv. apply startswith_false. intros [x Hx].
  apply app_eq_app in Hx as [l [[-> ->]|[Hpat Hr]]].
  - apply Hw. by exists u, l.
  - destruct l as [|c l].
    + rewrite app_nil_r in Hpat. subst v.
      apply Hw. exists u, []. by rewrite app_nil_r.
    + simpl in Hr. subst rest. apply Hrest. rewrite Hpat.
      destruct v as [|v0 v]; [done|]. simpl.
      apply elem_of_app. right. left.
Qed.

Hypothesis pat_sp : ∀ r, startswith pat (SP ++ r) = false.
Hypothesis sp_pat : safe_rest SP.

Lemma remove_sp r : remove pat (SP ++ r) = SP ++ remove pat r.
Proof. apply remove_no_match, no_match_single, pat_sp. Qed.

Lemma safe_rest_sp r : safe_rest (SP ++ r).
Proof. exact sp_pat. Qed.

Lemma no_match_join ws rest :
  Forall (λ w, ¬ contains pat w) ws → safe_rest rest →
  no_match (join SP ws) rest.
Proof.
  intros Hws Hrest. induction Hws as [|w ws Hw Hws IH]; simpl.
  { apply no_match_nil. }
  destruct ws as [|w2 ws]; [by apply no_match_clean|].
  apply no_match_app; [apply no_match_clean, safe_rest_sp; done|].
  apply (no_match_app SP); [|done].
  apply no_match_single, pat_sp.
Qed.

(** Removal distributes over [' '.join] when it does so over every
    entry followed by a safe continuation. *)
Lemma remove_join {C} (f g : C → list ascii) (cs : list C) :
  Forall (λ c, ∀ rest, safe_rest rest →
               remove pat (f c ++ rest) = g c ++ remove pat rest) cs →
  remove pat (join SP (f <$> cs)) = join SP (g <$> cs).
Proof.
  induction 1 as [|c cs Hc Hcs IH]; csimpl; [done|].
  destruct cs as [|c2 cs]; csimpl in *.
  - rewrite <-(app_nil_r (f c)), Hc by done. apply app_nil_r.
  - rewrite Hc by apply (safe_rest_sp (join SP (f c2 :: (f <$> cs)))).
    f_equal. rewrite <-IH. exact (remove_sp _).
Qed.
End Remove.

(** ** Stripping one pair of markers *)

Definition render_closed (cl : list ascii) (c : chunk) : list ascii :=
  match c with
  | Plain w => w
  | Marked ws => join SP ws ++ cl
  end.

Definition render_bare (c : chunk) : list ascii :=
  match c with
  | Plain w => w
  | Marked ws => join SP ws
  end.

Definition words_free (pat : list ascii) (c : chunk) : Prop :=
  Forall (λ w, ¬ contains pat w) (chunk_words c).

Section Markers.
Variables op cl : list ascii.
Hypothesis op_ne : op ≠ [].
Hypothesis cl_ne : cl ≠ [].
Hypothesis op_sp : ∀ r, startswith op (SP ++ r) = false.
Hypothesis cl_sp : ∀ r, startswith cl (SP ++ r) = false.
Hypothesis sp_op : safe_rest op SP.
Hypothesis sp_cl : safe_rest cl SP.
Hypothesis cl_op : ∀ r, safe_rest op (cl ++ r).
Hypothesis cl_cl : ∀ r, safe_rest cl (cl ++ r).
Hypothesis op_cl : ∀ r, no_match op cl r.

Lemma remove_open cs :
  Forall (words_free op) cs →
  remove op (join SP (render op cl <$> cs)) = join SP (render_closed cl <$> cs).
Proof.
  intros Hcs. apply remove_join; [done..|].
  eapply Forall_impl; [exact Hcs|].
  intros [w|ws] Hfree rest Hrest; unfold words_free in Hfree;
    simpl in Hfree |- *.
  - apply remove_no_match, no_match_clean; [|done].
    exact (Forall_inv Hfree).
  - unfold wrap. rewrite <-!app_assoc, remove_pat by done.
    rewrite !(app_assoc (join SP ws)).
    apply remove_no_match, no_match_app; [|done].
    by apply no_match_join.
Qed.

Lemma remove_close cs :
  Forall (words_free cl) cs →
  remove cl (join SP (render_closed cl <$> cs)) = join SP (render_bare <$> cs).
Proof.
  intros Hcs. apply remove_join; [done..|].
  eapply Forall_impl; [exact Hcs|].
  intros [w|ws] Hfree rest Hrest; unfold words_free in Hfree;
    simpl in Hfree |- *.
  - apply remove_no_match, no_match_clean; [|done].
    exact (Forall_inv Hfree).
  - rewrite <-app_assoc, remove_no_match by (by apply no_match_join).
    by rewrite remove_pat.
Qed.
End Markers.

Lemma join_cons_cons sep w w2 ws :
  join sep (w :: w2 :: ws) = w ++ sep ++ join sep (w2 :: ws).
Proof. done. Qed.

Lemma join_app sep l1 l2 :
  l1 ≠ [] → l2 ≠ [] → join sep (l1 ++ l2) = join sep l1 ++ sep ++ join sep l2.
Proof.
  intros H1 H2. induction l1 as [|w l1 IH]; [done|].
  destruct l1 as [|w2 l1].
  - destruct l2; [done|]. done.
  - rewrite <-!app_comm_cons, !join_cons_cons.
    rewrite app_comm_cons, IH by done. by rewrite <-!app_assoc.
Qed.

Lemma join_flat cs :
  Forall chunk_ok cs →
  join SP (render_bare <$> cs) = join SP (concat (chunk_words <$> cs)).
Proof.
  induction 1 as [|c cs Hc Hcs IH]; [done|].
  destruct cs as [|c2 cs].
  { destruct c; csimpl; by rewrite ?app_nil_r. }
  assert (Hne : concat (chunk_words <$> c2 :: cs) ≠ []).
  { apply Forall_cons in Hcs as [Hc2 _].
    destruct c2 as [w|[|w ws]]; csimpl; done. }
  rewrite (fmap_cons render_bare), (fmap_cons render_bare) in *.
  rewrite join_cons_cons, IH.
  rewrite (fmap_cons chunk_words c). simpl concat.
  destruct c as [w|ws]; simpl in Hc |- *.
  - symmetry. by apply (join_app SP [w]).
  - symmetry. exact (join_app SP ws _ Hc Hne).
Qed.

(** ** Words of [split] come from the text *)

Lemma contains_trans pat w s : contains pat w → contains w s → contains pat s.
Proof.
  intros (u1 & v1 & ->) (u2 & v2 & ->).
  exists (u2 ++ u1), (v1 ++ v2). by rewrite <-!app_assoc.
Qed.

Lemma split_from_contains cur s w :
  w ∈ split_from cur s → contains w (rev cur ++ s).
Proof.
  revert cur. induction s as [|c s IH]; intros cur; simpl.
  - destruct cur as [|c0 cur]; [by intros ?%elem_of_nil|].
    intros ->%list_elem_of_singleton. exists [], []. by rewrite app_nil_r.
  - destruct (isspace c).
    + assert (w ∈ split_from [] s → contains w (rev cur ++ c :: s)) as Hrest.
      { intros (u & v & Heq)%IH. simpl in Heq. subst s.
        exists (rev cur ++ c :: u), v. by rewrite <-app_assoc. }
      destruct cur as [|c0 cur]; [done|].
      intros [->|?]%elem_of_cons; [|auto].
      by exists [], (c :: s).
    + intros (u & v & Heq)%IH. exists u, v.
      rewrite <-Heq. simpl. by rewrite <-app_assoc.
Qed.

Lemma split_contains s w : w ∈ split s → contains w s.
Proof. apply (split_from_contains []). Qed.

Lemma split_words_free pat s :
  ¬ contains pat s → Forall (λ w, ¬ contains pat w) (split s).
Proof.
  intros Hs. apply Forall_forall. intros w Hw Hpat.
  apply Hs. eapply contains_trans; [done|]. by apply split_contains.
Qed.

(** ** The highlight function is total and keeps every word *)

Lemma highlight_shape a b :
  ∃ ca cb,
    get_text_diff_v2_highlight a b
    = Some (join SP (render DEL_OPEN DEL_CLOSE <$> ca),
            join SP (render INS_OPEN INS_CLOSE <$> cb))
    ∧ concat (chunk_words <$> ca) = split a
    ∧ concat (chunk_words <$> cb) = split b
    ∧ Forall chunk_ok ca ∧ Forall chunk_ok cb.
Proof.
  unfold get_text_diff_v2_highlight, get_opcodes.
  destruct (get_matching_blocks_chain (split a) (split b)) as (l & -> & Hc).
  destruct (highlight_chain (split a) (split b) l 0 0 [] [] Hc)
    as (ca & cb & Heq & Hca & Hcb & Hoka & Hokb).
  exists ca, cb. simpl. by rewrite Heq.
Qed.

Ltac solve_decide := apply (bool_decide_unpack _); by vm_compute.

Ltac solve_no_match :=
  let u := fresh "u" in
  let v := fresh "v" in
  let Huv := fresh "Huv" in
  let Hv := fresh "Hv" in
  intros ? u v Huv Hv; unfold DEL_CLOSE, INS_CLOSE, lit in Huv; simpl in Huv;
  repeat (destruct u as [|? u];
          [simpl in Huv; subst v; reflexivity
          |injection Huv as _ Huv]);
  destruct u; [simpl in Huv; by subst v|discriminate Huv].

Section Strip.

Lemma strip_markers op cl cs :
  op ≠ [] → cl ≠ [] →
  (∀ r, startswith op (SP ++ r) = false) →
  (∀ r, startswith cl (SP ++ r) = false) →
  safe_rest op SP → safe_rest cl SP →
  (∀ r, safe_rest op (cl ++ r)) → (∀ r, safe_rest cl (cl ++ r)) →
  (∀ r, no_match op cl r) →
  Forall (λ w, ¬ contains op w) (concat (chunk_words <$> cs)) →
  Forall (λ w, ¬ contains cl w) (concat (chunk_words <$> cs)) →
  Forall chunk_ok cs →
  remove cl (remove op (join SP (render op cl <$> cs)))
  = join SP (concat (chunk_words <$> cs)).
Proof.
  intros ? ? ? ? ? ? ? ? ? Hop Hcl Hok.
  apply Forall_concat, (proj1 (Forall_fmap _ _ _)) in Hop, Hcl.
  rewrite (remove_open op cl), (remove_close cl) by done.
  by apply join_flat.
Qed.

Lemma strip_del cs :
  Forall (λ w, ¬ contains DEL_OPEN w) (concat (chunk_words <$> cs)) →
  Forall (λ w, ¬ contains DEL_CLOSE w) (concat (chunk_words <$> cs)) →
  Forall chunk_ok cs →
  remove DEL_CLOSE (remove DEL_OPEN (join SP (render DEL_OPEN DEL_CLOSE <$> cs)))
  = join SP (concat (chunk_words <$> cs)).
Proof.
  apply strip_markers; try done; try solve_decide; try (intros; solve_decide).
  solve_no_match.
Qed.

Lemma strip_ins cs :
  Forall (λ w, ¬ contains INS_OPEN w) (concat (chunk_words <$> cs)) →
  Forall (λ w, ¬ contains INS_CLOSE w) (concat (chunk_words <$> cs)) →
  Forall chunk_ok cs →
  remove INS_CLOSE (remove INS_OPEN (join SP (render INS_OPEN INS_CLOSE <$> cs)))
  = join SP (concat (chunk_words <$> cs)).
Proof.
  apply strip_markers; try done; try solve_decide; try (intros; solve_decide).
  solve_no_match.
Qed.
End Strip.

(** Each output only needs its own text to be free of its
    own pair of markers. *)
Lemma highlight_keeps_words a b :
  ¬ contains DEL_OPEN a → ¬ contains DEL_CLOSE a →
  ¬ contains INS_OPEN b → ¬ contains INS_CLOSE b →
  ∃ o1 o2,
    get_text_diff_v2_highlight a b = Some (o1, o2)
    ∧ remove DEL_CLOSE (remove DEL_OPEN o1) = join SP (split a)
    ∧ remove INS_CLOSE (remove INS_OPEN o2) = join SP (split b).
Proof.
  intros Ha1 Ha2 Hb1 Hb2.
  destruct (highlight_shape a b) as (ca & cb & -> & Hca & Hcb & Hoka & Hokb).
  eexists _, _. split; [done|].
  split.
  - rewrite <-Hca. apply strip_del; rewrite ?Hca; try done;
      by apply split_words_free.
  - rewrite <-Hcb. apply strip_ins; rewrite ?Hcb; try done;
      by apply split_words_free.
Qed.

(** ** [__chain_b]: what [b2j] holds *)

Section ChainB.
Context {E : Type} `{Countable E}.

(** The positions of [w] in [b], counted from [i]. *)
Fixpoint positions (i : nat) (w : E) (b : list E) : list nat :=
  match b with
  | [] => []
  | x :: b' => (if decide (x = w) then [i] else []) ++ positions (S i) w b'
  end.

Lemma chain_b_loop_lookup (b : list E) i m w :
  chain_b_loop i b m !! w
  = match positions i w b with
    | [] => m !! w
    | ps => Some (default [] (m !! w) ++ ps)
    end.
Proof.
  revert i m. induction b as [|x b IH]; intros i m; simpl; [done|].
  rewrite IH. destruct (decide (x = w)) as [->|Hne]; simpl.
  - rewrite lookup_insert_eq. simpl.
    destruct (positions (S i) w b); [done|]. by rewrite <-app_assoc.
  - by rewrite lookup_insert_ne.
Qed.

Lemma elem_of_positions b i w j :
  j ∈ positions i w b ↔ ∃ j', j = i + j' ∧ b !! j' = Some w.
Proof.
  revert i. induction b as [|x b IH]; intros i; simpl.
  { split; [by intros ?%elem_of_nil|by intros (? & _ & ?)]. }
  rewrite elem_of_app, IH. split.
  - intros [Hj|(j' & -> & Hj')].
    + destruct (decide (x = w)) as [->|]; [|by apply elem_of_nil in Hj].
      apply list_elem_of_singleton in Hj as ->. exists 0. split; [lia|done].
    + exists (S j'). split; [lia|done].
  - intros ([|j'] & -> & Hj'); simpl in Hj'.
    + left. injection Hj' as ->. rewrite decide_True by done.
      rewrite Nat.add_0_r. apply list_elem_of_singleton. done.
    + right. exists j'. split; [lia|done].
Qed.

Lemma positions_sorted b i w : StronglySorted lt (positions i w b).
Proof.
  revert i. induction b as [|x b IH]; intros i; simpl; [constructor|].
  destruct (decide (x = w)); simpl; [|apply IH].
  constructor; [apply IH|].
  apply Forall_forall. intros j (j' & -> & _)%elem_of_positions. lia.
Qed.

(** The lists of [b2j] are increasing and hold positions of their key. *)
Lemma chain_b_lookup (b : list E) w js :
  chain_b b !! w = Some js →
  StronglySorted lt js ∧ ∀ j, j ∈ js ↔ b !! j = Some w.
Proof.
  intros Hjs.
  assert (chain_b_loop 0 b ∅ !! w = Some js) as Hloop.
  { unfold chain_b in Hjs. case_bool_decide; [|done].
    by apply lookup_foldr_delete_Some in Hjs as [_ ?]. }
  rewrite chain_b_loop_lookup, lookup_empty in Hloop. simpl in Hloop.
  assert (js = positions 0 w b) as ->.
  { destruct (positions 0 w b); [done|]. by injection Hloop. }
  split; [apply positions_sorted|].
  intros j. rewrite elem_of_positions. split.
  - by intros (j' & -> & ?).
  - intros ?. by exists j.
Qed.
End ChainB.

(** ** Matching a sequence against itself *)

Section SameSequence.
Context {E : Type} `{Countable E}.
Variables (s : list E) (b2j : gmap E (list nat)).
Hypothesis b2j_ok : ∀ w js,
  b2j !! w = Some js → StronglySorted lt js ∧ ∀ j, j ∈ js ↔ s !! j = Some w.

Local Abbreviation n := (length s).

(** Position [i] holds an element that still has an entry in [b2j]
    (popular elements have lost theirs). *)
Definition keyed (i : nat) : bool :=
  match s !! i with
  | Some w => bool_decide (is_Some (b2j !! w))
  | None => false
  end.

(** The number of keyed positions in a row just before position [i]. *)
Fixpoint runlen (i : nat) : nat :=
  match i with
  | 0 => 0
  | S i' => if keyed i' then S (runlen i') else 0
  end.

Lemma runlen_S i : runlen (S i) = if keyed i then S (runlen i) else 0.
Proof. done. Qed.

Local Arguments runlen : simpl never.

Definition lens_ok (i : nat) (j2len : gmap nat nat) : Prop :=
  ∀ j k, j2len !! j = Some k → k ≤ runlen i ∧ k ≤ runlen (S j).

Definition prev_ok (i : nat) (j2len : gmap nat nat) : Prop :=
  lens_ok i j2len ∧ j2lenget j2len i = runlen i.

Lemma row_diag i w j2len rem new bi bs :
  s !! i = Some w → is_Some (b2j !! w) →
  prev_ok i j2len →
  StronglySorted lt rem → (∀ j, j ∈ rem → s !! j = Some w) →
  (i ∈ rem ∨ (new !! i = Some (runlen (S i)) ∧ runlen (S i) ≤ bs)) →
  lens_ok (S i) new →
  (∀ j, j ≤ i → runlen j ≤ bs) →
  ∃ new' bi' bs',
    row 0 n i j2len rem new (bi, bi, bs) = (new', (bi', bi', bs'))
    ∧ new' !! i = Some (runlen (S i))
    ∧ lens_ok (S i) new'
    ∧ ∀ j, j ≤ S i → runlen j ≤ bs'.
Proof.
  intros Hi Hw [Hprev Hdiag]. revert new bi bs.
  assert (Hrun : ∀ j, s !! j = Some w → runlen (S j) = S (runlen j)).
  { intros j Hj. rewrite runlen_S. unfold keyed.
    by rewrite Hj, bool_decide_eq_true_2. }
  induction rem as [|j rem IH]; intros new bi bs Hsort Hrem Hi_in Hnew Hbs.
  { destruct Hi_in as [?%elem_of_nil|[Hni Hle]]; [done|].
    exists new, bi, bs. split_and!; [done..|].
    intros j Hj. destruct (decide (j = S i)) as [->|]; [done|].
    apply Hbs. lia. }
  assert (Hj : s !! j = Some w) by (apply Hrem; left).
  apply StronglySorted_inv in Hsort as [Hsort Hlt].
  cbn [row].
  rewrite bool_decide_eq_false_2 by lia.
  rewrite bool_decide_eq_false_2 by (apply lookup_lt_Some in Hj; lia).
  set (k := j2lenget j2len j + 1).
  assert (Hk : k ≤ runlen (S i) ∧ k ≤ runlen (S j)).
  { rewrite !Hrun by done. unfold k.
    destruct j as [|j']; simpl; [lia|].
    destruct (j2len !! j') as [k'|] eqn:Hj'; simpl; [|lia].
    destruct (Hprev _ _ Hj'). lia. }
  assert (Hki : j = i → k = runlen (S i)).
  { intros ->. unfold k. rewrite Hdiag, Hrun by done. lia. }
  assert (Hnew' : lens_ok (S i) (<[j:=k]> new)).
  { intros j0 k0. destruct (decide (j = j0)) as [->|Hne].
    - rewrite lookup_insert_eq. by intros [= <-].
    - rewrite lookup_insert_ne by done. apply Hnew. }
  assert (Hrem' : ∀ j0, j0 ∈ rem → s !! j0 = Some w)
    by (intros j0 ?; apply Hrem; by right).
  cbn [snd]. case_bool_decide as Hbest.
  - assert (j = i) as ->.
    { destruct (decide (j = i)) as [|Hne]; [done|exfalso].
      destruct (decide (j < i)).
      - specialize (Hbs (S j)). lia.
      - destruct Hi_in as [[->|Hin]%elem_of_cons|[_ ?]]; [done| |lia].
        eapply Forall_forall in Hlt; [|done]. lia. }
    apply IH; [done..| | |].
    + right. rewrite lookup_insert_eq, <-Hki; done.
    + done.
    + intros j Hj'. specialize (Hbs j Hj'). lia.
  - apply IH; [done..| |done|done].
    destruct (decide (j = i)) as [->|Hne].
    + right. rewrite lookup_insert_eq, <-Hki by done. split; [done|lia].
    + destruct Hi_in as [[->|Hin]%elem_of_cons|[Hni ?]]; [done|by left|].
      right. by rewrite lookup_insert_ne.
Qed.

Lemma rows_diag len i j2len bi bs :
  i + len = n → prev_ok i j2len →
  (∀ j, j ≤ i → runlen j ≤ bs) →
  ∃ bi' bs', rows s b2j 0 n (seq i len) j2len (bi, bi, bs) = Some (bi', bi', bs').
Proof.
  revert i j2len bi bs.
  induction len as [|len IH]; intros i j2len bi bs Hlen Hprev Hbs; simpl.
  { by eexists _, _. }
  destruct (lookup_lt_is_Some_2 s i) as [w Hw]; [lia|].
  rewrite Hw. simpl.
  destruct (b2j !! w) as [js|] eqn:Hjs; simpl.
  - destruct (b2j_ok _ _ Hjs) as [Hsort Hin].
    destruct (row_diag i w j2len js ∅ bi bs) as (new' & bi' & bs' & -> & Hd & Hl & Hb);
      [done|by rewrite Hjs|done|done|by intros j ?%Hin|left; by apply Hin| |done|].
    { intros j k Hjk. by rewrite lookup_empty in Hjk. }
    apply IH; [lia| |done].
    split; [done|]. simpl. by rewrite Hd.
  - assert (runlen (S i) = 0) as Hz.
    { rewrite runlen_S. unfold keyed. rewrite Hw, Hjs.
      rewrite bool_decide_eq_false_2; [done|]. by intros [? ?]. }
    apply IH; [lia| |].
    + split; [|by simpl; rewrite lookup_empty].
      intros j k Hjk. by rewrite lookup_empty in Hjk.
    + intros j Hj. destruct (decide (j = S i)) as [->|]; [lia|].
      apply Hbs. lia.
Qed.

Lemma grow_left_diag junk i k :
  i ≤ n → grow_left s s 0 0 junk i i k = Some (if junk then (i, i, k) else (0, 0, k + i)).
Proof.
  revert k. induction i as [|i IH]; intros k Hi; simpl.
  { destruct junk; [done|]. by rewrite Nat.add_0_r. }
  destruct (lookup_lt_is_Some_2 s i) as [w Hw]; [lia|].
  rewrite Nat.sub_0_r, Hw. simpl.
  destruct junk; simpl; [done|].
  rewrite bool_decide_eq_true_2 by done.
  rewrite IH by lia. do 2 f_equal. lia.
Qed.

Lemma grow_right_diag junk fuel k :
  k + fuel = n →
  grow_right s s n n junk fuel 0 0 k = Some (if junk then (0, 0, k) else (0, 0, n)).
Proof.
  revert k. induction fuel as [|fuel IH]; intros k Hk; simpl.
  { destruct junk; [done|]. do 2 f_equal. lia. }
  destruct (lookup_lt_is_Some_2 s k) as [w Hw]; [lia|].
  rewrite !bool_decide_eq_true_2 by lia. simpl.
  rewrite Hw. simpl.
  destruct junk; simpl; [done|].
  rewrite bool_decide_eq_true_2 by done.
  apply IH. lia.
Qed.

(** The longest match of a sequence with itself is the whole sequence,
    popular elements or not. *)
Lemma find_longest_match_same :
  find_longest_match s s b2j 0 n 0 n = Some (0, 0, n).
Proof.
  unfold find_longest_match.
  destruct (rows_bounds s s b2j 0 n 0 n ltac:(lia) ltac:(lia) (n - 0) 0 ∅ (0, 0, 0))
    as ([[bi bj] bs] & Hrows & Hw);
    [lia|lia|apply row_inv_empty|simpl; lia|].
  destruct (rows_diag (n - 0) 0 ∅ 0 0) as (bi' & bs' & Hrows');
    [lia|split; [|done]|by intros [|] ?; [|lia]|].
  { intros j k Hjk. by rewrite lookup_empty in Hjk. }
  rewrite Hrows in Hrows' |- *. injection Hrows' as -> -> ->.
  simpl in Hw |- *.
  rewrite (grow_left_diag false) by lia. simpl.
  rewrite (grow_right_diag false) by lia. simpl.
  rewrite Nat.sub_diag. done.
Qed.
End SameSequence.

Section SameText.
Context {E : Type} `{Countable E}.
Variable s : list E.

Lemma get_matching_blocks_same :
  get_matching_blocks s s
  = Some (if decide (length s = 0) then [(0, 0, 0)]
          else [(0, 0, length s); (length s, length s, 0)]).
Proof.
  unfold get_matching_blocks.
  replace (2 * length s + 2) with (S (S (2 * length s))) by lia.
  cbn [blocks_loop].
  rewrite (find_longest_match_same s (chain_b s) (chain_b_lookup s)).
  cbn [mbind option_bind].
  destruct (decide (length s = 0)) as [Hn|Hn].
  - rewrite bool_decide_eq_false_2 by lia. by rewrite Hn.
  - rewrite bool_decide_eq_true_2 by done.
    rewrite !andb_false_r.
    rewrite (bool_decide_eq_false_2 (0 + length s < length s)) by lia.
    cbn [andb mbind option_bind]. do 2 f_equal.
    change (merge_sort Match_le ([] ++ [(0, 0, length s)]))
      with [(0, 0, length s)].
    simpl. by rewrite bool_decide_eq_true_2 by done.
Qed.

Lemma get_opcodes_same :
  get_opcodes s s
  = Some (if decide (length s = 0) then [] else [(Equal, 0, length s, 0, length s)]).
Proof.
  unfold get_opcodes. rewrite get_matching_blocks_same.
  destruct (decide (length s = 0)) as [Hn|Hn]; simpl.
  - done.
  - rewrite (bool_decide_eq_false_2 (length s < length s)) by lia.
    by rewrite bool_decide_eq_true_2 by done.
Qed.
End SameText.

Lemma highlight_same (a : list ascii) :
  get_text_diff_v2_highlight a a = Some (join SP (split a), join SP (split a)).
Proof.
  unfold get_text_diff_v2_highlight. rewrite get_opcodes_same.
  destruct (decide (length (split a) = 0)) as [Hn|Hn]; simpl.
  - by apply length_zero_iff_nil in Hn as ->.
  - by rewrite slice_all.
Qed.

(** A pattern without a space that occurs in [' '.join(ws)] occurs in one
    of the words. *)
Lemma contains_join pat ws :
  pat ≠ [] → " "%char ∉ pat →
  contains pat (join SP ws) → ∃ w, w ∈ ws ∧ contains pat w.
Proof.
  intros Hne Hsp. induction ws as [|w ws IH]; simpl.
  { intros (u & v & Huv). symmetry in Huv.
    apply app_eq_nil in Huv as [_ [? _]%app_eq_nil]. done. }
  destruct ws as [|w2 ws].
  { intros ?. exists w. split; [left|done]. }
  intros (u & v & Huv).
  apply app_eq_app in Huv as [l [[-> Hl]|[-> Hl]]].
  - symmetry in Hl. apply app_eq_app in Hl as [l2 [[-> Hl2]|[-> Hl2]]].
    + exists (u ++ pat ++ l2). split; [left|]. by exists u, l2.
    + destruct l2 as [|c l2].
      * exists (u ++ l). split; [left|]. exists u, []. by rewrite !app_nil_r.
      * injection Hl2 as <- _. exfalso. apply Hsp.
        apply elem_of_app. right. left.
  - destruct l as [|c l].
    + destruct pat as [|p pat']; [done|]. injection Hl as <- _.
      exfalso. apply Hsp. left.
    + injection Hl as _ Hl.
      destruct IH as (w' & Hw' & Hc); [by exists l, v|].
      exists w'. split; [by right|done].
Qed.

Lemma contains_normalized pat a :
  pat ≠ [] → " "%char ∉ pat →
  contains pat (join SP (split a)) → contains pat a.
Proof.
  intros Hne Hsp (w & Hw & Hc)%contains_join; [|done..].
  eapply contains_trans; [done|]. by apply split_contains.
Qed.

(** ** Running the page script *)

Import App.

Definition with_state (w : world) (ss : gmap string val) : world :=
  World ss (entries_by_uid w) (uids w) (current_uid w).

(** What a keyed widget leaves in the store. *)
Definition register (key : string) (d : val) (ss : gmap string val)
  : gmap string val :=
  match ss !! key with
  | Some _ => ss
  | None => <[key := d]> ss
  end.

Lemma with_state_id w : with_state w (session_state w) = w.
Proof. by destruct w. Qed.

Lemma lookup_register key d ss k :
  register key d ss !! k
  = if decide (k = key) then Some (default d (ss !! key)) else ss !! k.
Proof.
  unfold register. destruct (ss !! key) as [v|] eqn:Hk.
  - case_decide; [by subst|done].
  - case_decide; [subst; by rewrite lookup_insert_eq|by rewrite lookup_insert_ne].
Qed.

Lemma lookup_register_ne key d ss k : k ≠ key → register key d ss !! k = ss !! k.
Proof. intros. rewrite lookup_register. by rewrite decide_False. Qed.

Lemma lookup_register_eq key d ss :
  register key d ss !! key = Some (default d (ss !! key)).
Proof. rewrite lookup_register. by rewrite decide_True. Qed.

Lemma register_keeps key d ss k v :
  ss !! k = Some v → register key d ss !! k = Some v.
Proof.
  intros Hk. rewrite lookup_register. case_decide; [|done].
  subst. by rewrite Hk.
Qed.

Lemma bind_run {A B} (m : M A) (f : A → M B) w :
  (m ≫= f) w
  = match m w with
    | (inr x, w1, e1) => let '(r, w2, e2) := f x w1 in (r, w2, e1 ++ e2)
    | (inl e, w1, e1) => (inl e, w1, e1)
    end.
Proof. done. Qed.

Lemma bind_ret_run {A B} (x : A) (f : A → M B) w : (mret x ≫= f) w = f x w.
Proof. rewrite bind_run. cbn. by destruct (f x w) as [[? ?] ?]. Qed.

Lemma bind_run_ok {A B} (m : M A) (f : A → M B) w x w1 e1 :
  m w = (inr x, w1, e1) →
  (m ≫= f) w = let '(r, w2, e2) := f x w1 in (r, w2, e1 ++ e2).
Proof. intros Hm. by rewrite bind_run, Hm. Qed.

Lemma bind_run_raise {A B} (m : M A) (f : A → M B) w e w1 e1 :
  m w = (inl e, w1, e1) → (m ≫= f) w = (inl e, w1, e1).
Proof. intros Hm. by rewrite bind_run, Hm. Qed.

Lemma state_setdefault_run key d w :
  state_setdefault key d w
  = (inr (), with_state w (register key d (session_state w)), []).
Proof. done. Qed.

Lemma state_set_run key v w :
  state_set key v w = (inr (), with_state w (<[key := v]> (session_state w)), []).
Proof. done. Qed.

Lemma state_get_run key w :
  state_get key w = (inr (session_state w !! key), w, []).
Proof. done. Qed.

Lemma state_item_run key w v :
  session_state w !! key = Some v → state_item key w = (inr v, w, []).
Proof. intros Hk. unfold state_item. by rewrite (bind_run_ok _ _ _ _ _ _ (state_get_run _ _)), Hk. Qed.

Lemma entry_item_run uid w :
  entry_item uid w
  = match entries_by_uid w !! uid with
    | Some e => (inr e, w, [])
    | None => (inl (KeyError uid), w, [])
    end.
Proof. unfold entry_item. rewrite bind_run. cbn. by destruct (_ !! _). Qed.

Lemma widget_run key d w :
  widget key d w
  = (inr (default d (session_state w !! key)),
     with_state w (register key d (session_state w)), [Rendered key]).
Proof.
  unfold widget.
  rewrite (bind_run_ok (emit _) _ w () w [Rendered key]) by done.
  rewrite (bind_run_ok _ _ _ _ _ _ (state_setdefault_run _ _ _)).
  rewrite (state_item_run key _ (default d (session_state w !! key)))
    by apply lookup_register_eq.
  done.
Qed.

Lemma button_run clicked key w :
  button clicked key w
  = (inr (bool_decide (clicked = Some key)),
     with_state w (<[key := VBool (bool_decide (clicked = Some key))]> (session_state w)),
     [Rendered key]).
Proof. done. Qed.

(** The value a radio shows for what the store holds under its key. *)
Definition radio_value (options : list string) (v : val) : option val :=
  match v with
  | VNone => Some VNone
  | VStr s => if bool_decide (s ∈ options) then Some v else None
  | _ => None
  end.

Lemma radio_run key options index w :
  let d := match index with
           | Some i => default VNone (VStr <$> options !! i)
           | None => VNone
           end in
  radio key options index w
  = (match radio_value options (default d (session_state w !! key)) with
     | Some v => inr v
     | None => inl ValueError
     end,
     with_state w (register key d (session_state w)), [Rendered key]).
Proof.
  intros d. unfold radio. fold d.
  rewrite (bind_run_ok _ _ _ _ _ _ (widget_run _ _ _)).
  destruct (default d (session_state w !! key)) as [| | |s| |]; try done.
  simpl. by case_bool_decide.
Qed.

(** ** Question 1 as a function of the store *)

Definition checkbox_keys (prefix : string) (options : list (string * string))
  : list string :=
  (λ p, prefix +:+ "_" +:+ p.1) <$> options.

Definition register_all (keys : list string) (d : val) (ss : gmap string val)
  : gmap string val :=
  foldl (λ ss k, register k d ss) ss keys.

(** The labels of the boxes the store has checked, and whether "other" is
    one of them. *)
Fixpoint q1_scan (ss : gmap string val) (prefix : string)
    (options : list (string * string)) (selected : list val) (show_other : bool)
  : list val * bool :=
  match options with
  | [] => (selected, show_other)
  | (subkey, label) :: options' =>
      if truthy (default (VBool false) (ss !! (prefix +:+ "_" +:+ subkey)))
      then q1_scan ss prefix options' (selected ++ [VStr label])
             (show_other || String.eqb subkey "other")
      else q1_scan ss prefix options' selected show_other
  end.

(** The list stored under [q1] (before [None] replaces an empty one);
    [None] when the text of "other" is not a string. *)
Definition q1_answer (ss : gmap string val) (selection : string)
  : option (list val) :=
  let prefix := q1_key_prefix selection in
  let '(selected, show_other) := q1_scan ss prefix q1_options [] false in
  if show_other : bool then
    match default (VStr "") (ss !! (prefix +:+ "_other_text")) with
    | VStr s =>
        if truthy (VStr (strip s))
        then Some (selected
                   ++ [VStr ("Other (Please specify reason below): " +:+ strip s)])
        else Some selected
    | _ => None
    end
  else Some selected.

Definition q1_value (selected : list val) : val :=
  match selected with
  | [] => VNone
  | _ => VList selected
  end.

Lemma lookup_register_all keys d ss k :
  k ∉ keys → register_all keys d ss !! k = ss !! k.
Proof.
  revert ss. induction keys as [|k' keys IH]; intros ss Hk; simpl; [done|].
  apply not_elem_of_cons in Hk as [Hne Hk].
  rewrite IH by done. by apply lookup_register_ne.
Qed.

Lemma register_all_keeps keys d ss k v :
  ss !! k = Some v → register_all keys d ss !! k = Some v.
Proof.
  revert ss. induction keys as [|k' keys IH]; intros ss Hk; simpl; [done|].
  by apply IH, register_keeps.
Qed.

Lemma default_register key d ss k :
  default d (register key d ss !! k) = default d (ss !! k).
Proof. rewrite lookup_register. by case_decide; subst. Qed.

Lemma default_register_all keys d ss k :
  default d (register_all keys d ss !! k) = default d (ss !! k).
Proof.
  revert ss. induction keys as [|k' keys IH]; intros ss; simpl; [done|].
  by rewrite IH, default_register.
Qed.

Lemma q1_scan_ext ss ss' prefix options selected show_other :
  (∀ k, k ∈ checkbox_keys prefix options →
        default (VBool false) (ss' !! k) = default (VBool false) (ss !! k)) →
  q1_scan ss' prefix options selected show_other
  = q1_scan ss prefix options selected show_other.
Proof.
  revert selected show_other.
  induction options as [|[subkey label] options IH]; intros selected show_other Hext;
    simpl; [done|].
  rewrite Hext by left.
  rewrite !IH; [done|intros k Hk; apply Hext; by right..].
Qed.

Lemma q1_checkboxes_run prefix options selected show_other w :
  q1_checkboxes prefix options selected show_other w
  = (inr (q1_scan (session_state w) prefix options selected show_other),
     with_state w (register_all (checkbox_keys prefix options) (VBool false)
                     (session_state w)),
     Rendered <$> checkbox_keys prefix options).
Proof.
  revert selected show_other w.
  induction options as [|[subkey label] options IH]; intros selected show_other w.
  { simpl. by rewrite with_state_id. }
  cbn [q1_checkboxes]. unfold checkbox.
  rewrite (bind_run_ok _ _ _ _ _ _ (widget_run _ _ _)).
  cbn [q1_scan].
  destruct (truthy (default (VBool false)
                      (session_state w !! (prefix +:+ "_" +:+ subkey))));
    rewrite IH; cbn [session_state with_state];
    by rewrite (q1_scan_ext (session_state w))
      by (intros; apply default_register).
Qed.

Lemma checkbox_keys_prefix selection options k :
  k ∈ checkbox_keys (q1_key_prefix selection) options →
  key_startswith k "q1_" = true.
Proof. intros (p & -> & _)%list_elem_of_fmap. reflexivity. Qed.

Definition other_text_key (selection : string) : string :=
  q1_key_prefix selection +:+ "_other_text".

Lemma other_text_key_fresh selection :
  other_text_key selection ∉ checkbox_keys (q1_key_prefix selection) q1_options.
Proof.
  intros (p & Heq & Hin)%list_elem_of_fmap.
  apply String.app_inj in Heq. unfold q1_options in Hin.
  repeat (apply elem_of_cons in Hin as [->|Hin]; [discriminate Heq|]).
  by apply elem_of_nil in Hin.
Qed.

(** The store when [question1] ends. *)
Definition q1_store (ss : gmap string val) (selection : string)
  : gmap string val :=
  let prefix := q1_key_prefix selection in
  let ss1 := register_all (checkbox_keys prefix q1_options) (VBool false)
               (register "q3" VNone (register "q1" VNone ss)) in
  if (q1_scan ss prefix q1_options [] false).2
  then register (other_text_key selection) (VStr "") ss1
  else ss1.

Definition q1_events (ss : gmap string val) (selection : string) : list event :=
  let prefix := q1_key_prefix selection in
  (Rendered <$> checkbox_keys prefix q1_options)
  ++ (if (q1_scan ss prefix q1_options [] false).2
      then [Rendered (other_text_key selection)] else []).

(** The prompts line 199 finds in an entry. *)
Definition q_texts_of (kvs : list (string * val)) : val :=
  default default_questions (dict_get "questions" kvs).

Lemma prompt_run q_texts i w :
  prompt q_texts i w
  = match subscript q_texts i with
    | inr _ => (inr (), w, [])
    | inl e => (inl e, w, [])
    end.
Proof. unfold prompt. by destruct (subscript q_texts i). Qed.

Lemma subscript_error v i e :
  subscript v i = inl e →
  e = IndexError ∨ e = TypeError ∨ e = KeyError (pretty i).
Proof.
  destruct v as [| | |s|l|kvs]; simpl; try (intros [= <-]; auto).
  - destruct (String.get i s); intros [= <-]; auto.
  - destruct (l !! i); intros [= <-]; auto.
Qed.

(** The store once lines 195-196 have run. *)
Definition q0_store (ss : gmap string val) : gmap string val :=
  register "q3" VNone (register "q1" VNone ss).

Lemma question1_run entry selection w :
  let ss := session_state w in
  question1 entry selection w
  = match entry with
    | VDict kvs =>
        match subscript (q_texts_of kvs) 0 with
        | inr _ =>
            match q1_answer ss selection with
            | Some l =>
                (inr (q_texts_of kvs),
                 with_state w (<["q1" := q1_value l]> (q1_store ss selection)),
                 q1_events ss selection)
            | None =>
                (inl AttributeError, with_state w (q1_store ss selection),
                 q1_events ss selection)
            end
        | inl e => (inl e, with_state w (q0_store ss), [])
        end
    | _ => (inl AttributeError, with_state w (q0_store ss), [])
    end.
Proof.
  intros ss. unfold question1, q1_answer, q1_store, q1_events, q0_store.
  rewrite (bind_run_ok _ _ _ _ _ _ (state_setdefault_run _ _ _)).
  rewrite (bind_run_ok _ _ _ _ _ _ (state_setdefault_run _ _ _)).
  cbn [session_state with_state]. fold ss.
  set (ss0 := register "q3" VNone (register "q1" VNone ss)).
  destruct entry as [| | | | |kvs]; try done.
  cbn [question_texts]. fold (q_texts_of kvs).
  rewrite bind_ret_run.
  rewrite bind_run, prompt_run.
  destruct (subscript (q_texts_of kvs) 0) as [e|t]; [by destruct w|].
  rewrite (bind_run_ok _ _ _ _ _ _ (q1_checkboxes_run _ _ _ _ _)).
  cbn [session_state with_state].
  set (prefix := q1_key_prefix selection).
  assert (Hscan : q1_scan ss0 prefix q1_options [] false
                  = q1_scan ss prefix q1_options [] false).
  { apply q1_scan_ext. intros k Hk%checkbox_keys_prefix.
    unfold ss0. rewrite !lookup_register_ne; [done|by intros ->..]. }
  rewrite Hscan.
  destruct (q1_scan ss prefix q1_options [] false) as [selected [|]];
    cbn [snd app_nil_l].
  - unfold text_input, other_text_key. fold prefix.
    rewrite bind_run, (bind_run_ok _ _ _ _ _ _ (widget_run _ _ _)).
    cbn [session_state with_state].
    rewrite lookup_register_all by apply other_text_key_fresh.
    assert (Hother : ss0 !! (prefix +:+ "_other_text")
                     = ss !! (prefix +:+ "_other_text")).
    { unfold ss0. rewrite !lookup_register_ne; [done|done..]. }
    rewrite Hother.
    destruct (default (VStr "") (ss !! (prefix +:+ "_other_text")))
      as [| | |t'| |]; try (cbn; by rewrite ?app_nil_r).
    destruct (truthy (VStr (strip t'))); cbn; by rewrite ?app_nil_r.
  - cbn. by rewrite ?app_nil_r.
Qed.

Lemma q1_store_lookup ss selection k :
  key_startswith k "q1_" = false →
  q1_store ss selection !! k = register "q3" VNone (register "q1" VNone ss) !! k.
Proof.
  intros Hk. unfold q1_store.
  assert (k ∉ checkbox_keys (q1_key_prefix selection) q1_options) as Hfresh.
  { intros Hin%checkbox_keys_prefix. congruence. }
  destruct (q1_scan _ _ _ _ _).2.
  - rewrite lookup_register_ne; [by apply lookup_register_all|].
    intros ->. by vm_compute in Hk.
  - by apply lookup_register_all.
Qed.

Lemma key_startswith_app k p q :
  key_startswith k (p +:+ q) = true → key_startswith k p = true.
Proof.
  revert k. induction p as [|c p IH]; intros k; simpl; [done|].
  destruct k as [|d k]; [done|].
  intros [-> ?%IH]%andb_true_iff. done.
Qed.

Lemma q1_store_other ss selection k :
  key_startswith k "q1" = false → k ≠ "q3" →
  q1_store ss selection !! k = ss !! k.
Proof.
  intros Hk Hq3. rewrite q1_store_lookup.
  - rewrite !lookup_register_ne; [done|by intros ->|done].
  - destruct (key_startswith k "q1_") eqn:Hk'; [|done].
    apply (key_startswith_app k "q1" "_") in Hk'. congruence.
Qed.

Lemma q1_store_q3 ss selection :
  q1_store ss selection !! "q3" = Some (default VNone (ss !! "q3")).
Proof.
  rewrite q1_store_lookup by done.
  by rewrite lookup_register_eq, lookup_register_ne.
Qed.

Lemma q1_store_keeps ss selection k v :
  ss !! k = Some v → q1_store ss selection !! k = Some v.
Proof.
  intros Hk. unfold q1_store.
  destruct (q1_scan _ _ _ _ _).2;
    repeat first [apply register_all_keeps|apply register_keeps]; done.
Qed.

Definition is_widget_of (p : string) (ev : event) : Prop :=
  ∃ k, ev = Rendered k ∧ key_startswith k p = true.

Lemma q1_events_widgets ss selection :
  Forall (is_widget_of "q1_") (q1_events ss selection).
Proof.
  unfold q1_events. apply Forall_app. split.
  - apply Forall_fmap, Forall_forall. intros k Hk.
    exists k. split; [done|]. by eapply checkbox_keys_prefix.
  - destruct (q1_scan _ _ _ _ _).2; repeat constructor.
    by eexists.
Qed.

(** ** Questions 2 and 3 as functions of the store *)

Definition q2_value (ss : gmap string val) : option val :=
  radio_value q2_options (default VNone (ss !! "q2")).

Lemma question2_run q_texts w q1 :
  session_state w !! "q1" = Some q1 →
  question2 q_texts w
  = if truthy q1
    then match subscript q_texts 1 with
         | inr _ =>
             (match q2_value (session_state w) with
              | Some _ => inr ()
              | None => inl ValueError
              end,
              with_state w (register "q2" VNone (session_state w)),
              [Rendered "q2"])
         | inl e => (inl e, w, [])
         end
    else (inr (), w, []).
Proof.
  intros Hq1. unfold question2.
  rewrite (bind_run_ok _ _ _ _ _ _ (state_item_run _ _ _ Hq1)).
  destruct (truthy q1); [|done].
  rewrite bind_run, prompt_run.
  destruct (subscript q_texts 1) as [e|t]; [done|].
  rewrite bind_run, (radio_run "q2" q2_options None). unfold q2_value.
  by destruct (radio_value _ _).
Qed.

Definition q3_value (ss : gmap string val) : option val :=
  radio_value q3_options (default (VStr "Yes") (ss !! "q3")).

Definition NO : string := "If No, which section:".

Definition q3_store (ss : gmap string val) (q3 : val) (clicked : option string)
  : gmap string val :=
  <["submit_review" := VBool (bool_decide (clicked = Some "submit_review"))]>
    ((if is_str q3 NO then register "q3_section" (VStr "") else id)
       (register "q3" (VStr "Yes") ss)).

Definition q3_widgets (q3 : val) : list event :=
  [Rendered "q3"] ++ (if is_str q3 NO then [Rendered "q3_section"] else [])
  ++ [Rendered "submit_review"].

Definition review_of (q1 q2 q3 q3_section : val) : val :=
  VDict [("q1", q1); ("q2", q2); ("q3", q3); ("q3_section", q3_section)].

Lemma submit_review_run selection upload_ok w q1 q2 q3 :
  session_state w !! "q1" = Some q1 →
  session_state w !! "q2" = Some q2 →
  session_state w !! "q3" = Some q3 →
  submit_review selection upload_ok w
  = match entries_by_uid w !! selection with
    | Some (VDict kvs) =>
        let review :=
          review_of q1 q2 q3 (default VNone (session_state w !! "q3_section")) in
        let entry := VDict (dict_set "review" review kvs) in
        let w1 := World (session_state w) (<[selection := entry]> (entries_by_uid w))
                    (uids w) (current_uid w) in
        let up := Upload ("test/" +:+ selection +:+ ".json") entry in
        if upload_ok
        then (inr (),
              with_state w1 (<["review_submitted" := VBool true]> (session_state w)),
              [up; Success "Review submitted and saved to GCS."])
        else (inl UploadError, w1, [up])
    | Some _ => (inl TypeError, w, [])
    | None => (inl (KeyError selection), w, [])
    end.
Proof.
  intros Hq1 Hq2 Hq3. unfold submit_review.
  rewrite (bind_run_ok _ _ _ _ _ _ (state_item_run _ _ _ Hq1)).
  rewrite (bind_run_ok _ _ _ _ _ _ (state_item_run _ _ _ Hq2)).
  rewrite (bind_run_ok _ _ _ _ _ _ (state_item_run _ _ _ Hq3)).
  rewrite (bind_run_ok _ _ _ _ _ _ (state_get_run _ _)).
  rewrite bind_run, entry_item_run.
  destruct (entries_by_uid w !! selection) as [[| | | | |kvs]|]; try reflexivity.
  destruct upload_ok; reflexivity.
Qed.

Lemma radio_value_Some options v v' : radio_value options v = Some v' → v' = v.
Proof.
  destruct v as [| | |s| |]; simpl; try done; [by intros [= <-]|].
  case_bool_decide; [by intros [= <-]|done].
Qed.

Lemma q3_store_lookup ss q3 clicked k :
  k ≠ "submit_review" → k ≠ "q3_section" → k ≠ "q3" →
  q3_store ss q3 clicked !! k = ss !! k.
Proof.
  intros ???. unfold q3_store. rewrite lookup_insert_ne by done.
  destruct (is_str q3 NO); simpl; by rewrite !lookup_register_ne.
Qed.

Lemma q3_store_q3 ss q3 clicked :
  q3_value ss = Some q3 → q3_store ss q3 clicked !! "q3" = Some q3.
Proof.
  intros ->%radio_value_Some. unfold q3_store. rewrite lookup_insert_ne by done.
  destruct (is_str _ NO); simpl;
    by rewrite ?(lookup_register_ne "q3_section"), lookup_register_eq.
Qed.

Lemma q3_store_section ss q3 clicked :
  q3_store ss q3 clicked !! "q3_section"
  = if is_str q3 NO then Some (default (VStr "") (ss !! "q3_section"))
    else ss !! "q3_section".
Proof.
  unfold q3_store. rewrite lookup_insert_ne by done.
  destruct (is_str q3 NO); simpl.
  - by rewrite lookup_register_eq, lookup_register_ne.
  - by rewrite lookup_register_ne.
Qed.

Lemma question3_skip q_texts selection clicked upload_ok w q1 :
  session_state w !! "q1" = Some q1 →
  (truthy q1 = false
   ∨ ∃ q2, session_state w !! "q2" = Some q2 ∧ truthy q2 = false) →
  question3 q_texts selection clicked upload_ok w = (inr (), w, []).
Proof.
  intros Hq1 Hskip. unfold question3.
  rewrite (bind_run_ok _ _ _ _ _ _ (state_item_run _ _ _ Hq1)).
  destruct (truthy q1); [|done].
  destruct Hskip as [|(q2 & Hq2 & Hf)]; [done|].
  rewrite bind_run, (bind_run_ok _ _ _ _ _ _ (state_item_run _ _ _ Hq2)).
  cbn. by rewrite Hf.
Qed.

(** Line 288 raises: the entry has no third prompt. *)
Lemma question3_noprompt q_texts selection clicked upload_ok w q1 q2 e :
  session_state w !! "q1" = Some q1 → truthy q1 = true →
  session_state w !! "q2" = Some q2 → truthy q2 = true →
  subscript q_texts 2 = inl e →
  question3 q_texts selection clicked upload_ok w = (inl e, w, []).
Proof.
  intros Hq1 Ht1 Hq2 Ht2 Hp. unfold question3.
  rewrite (bind_run_ok _ _ _ _ _ _ (state_item_run _ _ _ Hq1)), Ht1.
  rewrite bind_run, (bind_run_ok _ _ _ _ _ _ (state_item_run _ _ _ Hq2)).
  cbn [mret M_ret app]. rewrite Ht2.
  by rewrite bind_run, prompt_run, Hp.
Qed.

Lemma question3_invalid q_texts selection clicked upload_ok w q1 q2 t :
  session_state w !! "q1" = Some q1 → truthy q1 = true →
  session_state w !! "q2" = Some q2 → truthy q2 = true →
  subscript q_texts 2 = inr t →
  q3_value (session_state w) = None →
  question3 q_texts selection clicked upload_ok w
  = (inl ValueError,
     with_state w (register "q3" (VStr "Yes") (session_state w)), [Rendered "q3"]).
Proof.
  intros Hq1 Ht1 Hq2 Ht2 Hp Hq3. unfold question3.
  rewrite (bind_run_ok _ _ _ _ _ _ (state_item_run _ _ _ Hq1)), Ht1.
  rewrite bind_run, (bind_run_ok _ _ _ _ _ _ (state_item_run _ _ _ Hq2)).
  cbn [mret M_ret app]. rewrite Ht2.
  rewrite bind_run, prompt_run, Hp.
  rewrite bind_run, (radio_run "q3" q3_options (Some 0)).
  change (default VNone (VStr <$> q3_options !! 0)) with (VStr "Yes").
  unfold q3_value in Hq3. by rewrite Hq3.
Qed.

Ltac finish_q3 :=
  cbn [session_state with_state entries_by_uid uids current_uid id];
  match goal with
  | |- context [truthy (default VNone (?m !! "review_submitted"))] =>
      destruct (truthy (default VNone (m !! "review_submitted")));
      [destruct (next_step _ _ _) as [[? ?] ?]; reflexivity
      |cbn; by rewrite ?app_nil_r]
  end.

Lemma question3_run q_texts selection clicked upload_ok w q1 q2 q3 t :
  session_state w !! "q1" = Some q1 → truthy q1 = true →
  session_state w !! "q2" = Some q2 → truthy q2 = true →
  subscript q_texts 2 = inr t →
  q3_value (session_state w) = Some q3 →
  question3 q_texts selection clicked upload_ok w
  = let w3 := with_state w (q3_store (session_state w) q3 clicked) in
    let '(r1, w4, e1) :=
      if bool_decide (clicked = Some "submit_review")
      then submit_review selection upload_ok w3
      else (inr (), w3, []) in
    match r1 with
    | inl e => (inl e, w4, q3_widgets q3 ++ e1)
    | inr _ =>
        if truthy (default VNone (session_state w4 !! "review_submitted"))
        then let '(r2, w5, e2) := next_step selection clicked w4 in
             (r2, w5, q3_widgets q3 ++ e1 ++ e2)
        else (inr (), w4, q3_widgets q3 ++ e1)
    end.
Proof.
  intros Hq1 Ht1 Hq2 Ht2 Hp Hq3. unfold question3.
  rewrite (bind_run_ok _ _ _ _ _ _ (state_item_run _ _ _ Hq1)), Ht1.
  rewrite bind_run, (bind_run_ok _ _ _ _ _ _ (state_item_run _ _ _ Hq2)).
  cbn [mret M_ret app]. rewrite Ht2.
  rewrite bind_run, prompt_run, Hp.
  rewrite bind_run, (radio_run "q3" q3_options (Some 0)).
  change (default VNone (VStr <$> q3_options !! 0)) with (VStr "Yes").
  pose proof (radio_value_Some _ _ _ Hq3) as Hv.
  unfold q3_value in Hq3. rewrite Hq3.
  rewrite (bind_run_ok _ _ _ _ _ _ (state_get_run _ _)).
  cbn [session_state with_state]. rewrite lookup_register_eq, <-Hv.
  cbn [default from_option id]. fold NO.
  unfold q3_store, q3_widgets, text_input.
  destruct (is_str q3 NO).
  - rewrite bind_run, (bind_run_ok _ _ _ _ _ _ (widget_run _ _ _)).
    cbn [mret M_ret app].
    rewrite (bind_run_ok _ _ _ _ _ _ (button_run _ _ _)).
    cbn [session_state with_state].
    destruct (bool_decide (clicked = Some "submit_review")).
    + rewrite bind_run.
      destruct (submit_review _ _ _) as [[[e|[]] w4] e1]; [done|].
      rewrite (bind_run_ok _ _ _ _ _ _ (state_get_run _ _)). finish_q3.
    + rewrite bind_run. cbn [mret M_ret].
      rewrite (bind_run_ok _ _ _ _ _ _ (state_get_run _ _)). finish_q3.
  - rewrite bind_run. cbn [mret M_ret app].
    rewrite (bind_run_ok _ _ _ _ _ _ (button_run _ _ _)).
    cbn [session_state with_state].
    destruct (bool_decide (clicked = Some "submit_review")).
    + rewrite bind_run.
      destruct (submit_review _ _ _) as [[[e|[]] w4] e1]; [done|].
      rewrite (bind_run_ok _ _ _ _ _ _ (state_get_run _ _)). finish_q3.
    + rewrite bind_run. cbn [mret M_ret].
      rewrite (bind_run_ok _ _ _ _ _ _ (state_get_run _ _)). finish_q3.
Qed.


(** ** Example worlds *)

Definition dog : val :=
  VDict [("entity_id", VStr "Dog"); ("section_name", VStr "History");
         ("original_section", VStr "The dog is loyal");
         ("agent_updated_section", VStr "The dog is very loyal and friendly");
         ("uid", VStr "article-1")].

Definition cat : val :=
  VDict [("entity_id", VStr "Cat"); ("uid", VStr "article-2")].

Definition empty_world : world := World ∅ ∅ [] None.

(** The store right after the upload of [dog] and [cat]. *)
Definition fresh_world : world := default empty_world (start [dog; cat]).

(** [w] with the widget values [kvs] the browser sends in. *)
Definition with_inputs (w : world) (kvs : list (string * val)) : world :=
  with_state w (list_to_map kvs ∪ session_state w).

(** ** Only "other" checked, no text *)

(** In the store, "other" is the only box of [selection] that is checked and
    its text is empty once stripped. *)
Definition only_other (ss : gmap string val) (selection : string) : Prop :=
  (∀ subkey label, (subkey, label) ∈ q1_options →
     truthy (default (VBool false)
               (ss !! (q1_key_prefix selection +:+ "_" +:+ subkey)))
     = String.eqb subkey "other")
  ∧ ∃ t, default (VStr "") (ss !! other_text_key selection) = VStr t
         ∧ strip t = "".

Definition only_other_world : world :=
  with_inputs fresh_world [("q1_article-_other", VBool true)].

Lemma only_other_example : only_other (session_state only_other_world) "article-1".
Proof.
  split.
  - intros subkey label Hin. unfold q1_options in Hin.
    repeat (apply elem_of_cons in Hin as [[= -> ->]|Hin]; [by vm_compute|]).
    by apply elem_of_nil in Hin.
  - exists "". by vm_compute.
Qed.

Lemma q1_scan_only_other ss prefix options selected show_other :
  (∀ subkey label, (subkey, label) ∈ options →
     truthy (default (VBool false) (ss !! (prefix +:+ "_" +:+ subkey)))
     = String.eqb subkey "other") →
  q1_scan ss prefix options selected show_other
  = (selected
     ++ ((λ p, VStr p.2) <$> List.filter (λ p, String.eqb p.1 "other") options),
     show_other || List.existsb (λ p, String.eqb p.1 "other") options).
Proof.
  revert selected show_other.
  induction options as [|[subkey label] options IH]; intros selected show_other Hb.
  { simpl. by rewrite app_nil_r, orb_false_r. }
  cbn [q1_scan List.filter List.existsb fst].
  rewrite (Hb subkey label) by left.
  rewrite !IH by (intros s' l' ?; apply (Hb s' l'); by right).
  destruct (String.eqb subkey "other"); cbn [fmap list_fmap snd orb].
  - rewrite <-app_assoc. by destruct show_other.
  - by destruct show_other.
Qed.

Lemma q1_answer_only_other ss selection :
  only_other ss selection → q1_answer ss selection = Some [VStr "Other:"].
Proof.
  intros [Hboxes (t & Ht & Hstrip)]. unfold q1_answer.
  rewrite (q1_scan_only_other _ _ _ _ _ Hboxes).
  cbn. fold (other_text_key selection). by rewrite Ht, Hstrip.
Qed.

(** ** The next-step buttons *)

Definition is_upload (ev : event) : Prop :=
  match ev with
  | Upload _ _ => True
  | _ => False
  end.

Lemma next_step_run selection clicked w :
  next_step selection clicked w
  = match next_uid (uids w) selection with
    | None => (inl ValueError, w, [])
    | Some next =>
        match entries_by_uid w !! next with
        | None => (inl (KeyError next), w, [])
        | Some (VDict kvs) =>
            match dict_get "entity_id" kvs with
            | None => (inl (KeyError "entity_id"), w, [])
            | Some entity_id =>
                let info := InfoNext entity_id
                              (default (VStr "") (dict_get "section_name" kvs)) in
                if bool_decide (clicked = Some "go_next")
                then (inl RerunException,
                      World (filter (λ kv, go_next_key kv.1 = false)
                               (<["go_next" := VBool true]> (session_state w)))
                        (entries_by_uid w) (uids w) (Some next),
                      [info; Rendered "go_next"])
                else (inr (),
                      with_state w
                        (<["stay" := VBool (bool_decide (clicked = Some "stay"))]>
                           (<["go_next" := VBool false]> (session_state w))),
                      [info; Rendered "go_next"; Rendered "stay"]
                      ++ (if bool_decide (clicked = Some "stay")
                          then [Info "You can review or revise your answers."]
                          else []))
            end
        | Some _ => (inl TypeError, w, [])
        end
    end.
Proof.
  unfold next_step. rewrite bind_run. cbn [get_world].
  destruct (next_uid (uids w) selection) as [next|]; [|done].
  rewrite bind_run, entry_item_run.
  destruct (entries_by_uid w !! next) as [[| | | | |kvs]|]; try done.
  destruct (dict_get "entity_id" kvs) as [entity_id|]; [|done].
  rewrite bind_run. cbn [emit].
  rewrite (bind_run_ok _ _ _ _ _ _ (button_run _ _ _)).
  destruct (bool_decide (clicked = Some "go_next")); [done|].
  rewrite (bind_run_ok _ _ _ _ _ _ (button_run _ _ _)).
  by destruct (bool_decide (clicked = Some "stay")).
Qed.

Lemma next_step_no_upload selection clicked w r w' evs :
  next_step selection clicked w = (r, w', evs) → Forall (λ ev, ¬ is_upload ev) evs.
Proof.
  rewrite next_step_run. cbv zeta. intros Hrun.
  repeat case_match; simplify_eq;
    repeat first [apply Forall_nil_2|apply Forall_cons_2; [by intros []|]].
Qed.

Lemma dict_get_set k v kvs : dict_get k (dict_set k v kvs) = Some v.
Proof.
  induction kvs as [|[k' v'] kvs IH]; simpl.
  - by rewrite String.eqb_refl.
  - destruct (String.eqb k' k) eqn:Hk; simpl; rewrite ?String.eqb_refl, ?Hk; done.
Qed.

(** ** The whole form as a function of the store *)

(** The store when question 3 starts. *)
Definition q2_store (ss : gmap string val) (selection : string) (l : list val)
  : gmap string val :=
  register "q2" VNone (<["q1" := q1_value l]> (q1_store ss selection)).

Lemma form_run selection clicked upload_ok w :
  let ss := session_state w in
  form selection clicked upload_ok w
  = match entries_by_uid w !! selection with
    | None => (inl (KeyError selection), w, [])
    | Some (VDict kvs) =>
        let q_texts := q_texts_of kvs in
        match subscript q_texts 0 with
        | inl e => (inl e, with_state w (q0_store ss), [])
        | inr _ =>
            match q1_answer ss selection with
            | None =>
                (inl AttributeError, with_state w (q1_store ss selection),
                 q1_events ss selection)
            | Some l =>
                if truthy (q1_value l) then
                  match subscript q_texts 1 with
                  | inl e =>
                      (inl e,
                       with_state w (<["q1" := q1_value l]> (q1_store ss selection)),
                       q1_events ss selection)
                  | inr _ =>
                      match q2_value (<["q1" := q1_value l]> (q1_store ss selection))
                      with
                      | None =>
                          (inl ValueError, with_state w (q2_store ss selection l),
                           q1_events ss selection ++ [Rendered "q2"])
                      | Some _ =>
                          let '(r, w', evs) :=
                            question3 q_texts selection clicked upload_ok
                              (with_state w (q2_store ss selection l)) in
                          (r, w', q1_events ss selection ++ [Rendered "q2"] ++ evs)
                      end
                  end
                else
                  (inr (),
                   with_state w (<["q1" := q1_value l]> (q1_store ss selection)),
                   q1_events ss selection)
            end
        end
    | Some _ => (inl AttributeError, with_state w (q0_store ss), [])
    end.
Proof.
  intros ss. unfold form.
  rewrite bind_run, entry_item_run.
  destruct (entries_by_uid w !! selection) as [entry|]; [|done].
  cbn [app]. rewrite bind_run, question1_run. fold ss.
  destruct entry as [| | | | |kvs]; try done.
  cbv zeta.
  destruct (subscript (q_texts_of kvs) 0) as [e|t0]; [done|].
  destruct (q1_answer ss selection) as [l|]; [|done].
  rewrite bind_run.
  rewrite (question2_run _ _ (q1_value l)) by apply lookup_insert_eq.
  destruct (truthy (q1_value l)) eqn:Hq1.
  - destruct (subscript (q_texts_of kvs) 1) as [e|t1]; [by rewrite app_nil_r|].
    cbn [session_state with_state]. fold (q2_store ss selection l).
    destruct (q2_value _); [|done].
    by destruct (question3 _ _ _ _ _) as [[r w'] evs].
  - rewrite (question3_skip _ _ _ _ _ (q1_value l));
      [by rewrite !app_nil_r|apply lookup_insert_eq|by left].
Qed.

Lemma q2_store_q1 ss selection l :
  q2_store ss selection l !! "q1" = Some (q1_value l).
Proof. apply register_keeps, lookup_insert_eq. Qed.

Lemma q2_store_q2 ss selection l :
  q2_store ss selection l !! "q2" = Some (default VNone (ss !! "q2")).
Proof.
  unfold q2_store. rewrite lookup_register_eq, lookup_insert_ne by done.
  by rewrite q1_store_other.
Qed.

Lemma q2_store_q3 ss selection l :
  q2_store ss selection l !! "q3" = Some (default VNone (ss !! "q3")).
Proof.
  unfold q2_store. rewrite lookup_register_ne, lookup_insert_ne by done.
  apply q1_store_q3.
Qed.

Lemma q2_store_other ss selection l k :
  key_startswith k "q1" = false → k ≠ "q2" → k ≠ "q3" →
  q2_store ss selection l !! k = ss !! k.
Proof.
  intros Hk ??. unfold q2_store.
  rewrite lookup_register_ne, lookup_insert_ne; [|by intros <-|done].
  by apply q1_store_other.
Qed.

Lemma q2_store_keeps ss selection l k v :
  k ≠ "q1" → ss !! k = Some v → q2_store ss selection l !! k = Some v.
Proof.
  intros ? Hk. apply register_keeps. rewrite lookup_insert_ne by done.
  by apply q1_store_keeps.
Qed.

Lemma q2_value_q2_store ss selection l :
  q2_value (<["q1" := q1_value l]> (q1_store ss selection))
  = radio_value q2_options (default VNone (ss !! "q2")).
Proof.
  unfold q2_value. rewrite lookup_insert_ne by done.
  by rewrite q1_store_other.
Qed.

Lemma q3_value_q2_store ss selection l :
  q3_value (q2_store ss selection l)
  = radio_value q3_options (default VNone (ss !! "q3")).
Proof. unfold q3_value. by rewrite q2_store_q3. Qed.

Lemma radio_value_options options v v' :
  radio_value options v = Some v' →
  v' = VNone ∨ ∃ s, v' = VStr s ∧ s ∈ options.
Proof.
  destruct v as [| | |s| |]; simpl; try done.
  - intros [= <-]. by left.
  - case_bool_decide; [|done]. intros [= <-]. right. eauto.
Qed.

Lemma truthy_radio_value options v v' :
  radio_value options v = Some v' → truthy v' = true →
  ∃ s, v' = VStr s ∧ s ∈ options.
Proof. intros [->|?]%radio_value_options; [done|auto]. Qed.

(** ** Where an upload can come from *)

Lemma no_upload_elem evs path payload :
  Forall (λ ev, ¬ is_upload ev) evs → Upload path payload ∉ evs.
Proof. intros Hall Hin. by eapply Forall_forall in Hall; [|done]. Qed.

Lemma widgets_no_upload p evs :
  Forall (is_widget_of p) evs → Forall (λ ev, ¬ is_upload ev) evs.
Proof. intros Hall. eapply Forall_impl; [exact Hall|]. by intros ev (k & -> & _) ?. Qed.

Lemma q3_widgets_no_upload q3 : Forall (λ ev, ¬ is_upload ev) (q3_widgets q3).
Proof.
  unfold q3_widgets. destruct (is_str q3 NO); repeat constructor; by intros [].
Qed.

(** What [question3] did when it called the storage client. *)
Lemma question3_upload q_texts selection clicked upload_ok w r w' evs
    path payload q1 q2 :
  session_state w !! "q1" = Some q1 →
  session_state w !! "q2" = Some q2 →
  question3 q_texts selection clicked upload_ok w = (r, w', evs) →
  Upload path payload ∈ evs →
  ∃ q3 kvs,
    truthy q1 = true ∧ truthy q2 = true
    ∧ q3_value (session_state w) = Some q3
    ∧ clicked = Some "submit_review"
    ∧ entries_by_uid w !! selection = Some (VDict kvs)
    ∧ payload
      = VDict (dict_set "review"
                 (review_of q1 q2 q3
                    (default VNone
                       (q3_store (session_state w) q3 clicked !! "q3_section")))
                 kvs)
    ∧ (upload_ok = false →
       r = inl UploadError
       ∧ w' = World (q3_store (session_state w) q3 clicked)
                (<[selection := payload]> (entries_by_uid w)) (uids w)
                (current_uid w)
       ∧ evs = q3_widgets q3 ++ [Upload path payload]).
Proof.
  intros Hq1 Hq2 Hrun Hin.
  destruct (truthy q1) eqn:Ht1; cycle 1.
  { rewrite (question3_skip _ _ _ _ _ q1) in Hrun by auto.
    simplify_eq. by apply elem_of_nil in Hin. }
  destruct (truthy q2) eqn:Ht2; cycle 1.
  { rewrite (question3_skip _ _ _ _ _ q1) in Hrun by eauto.
    simplify_eq. by apply elem_of_nil in Hin. }
  destruct (subscript q_texts 2) as [e|t] eqn:Hp.
  { rewrite (question3_noprompt _ _ _ _ _ q1 q2 e) in Hrun by done.
    simplify_eq. by apply elem_of_nil in Hin. }
  destruct (q3_value (session_state w)) as [q3|] eqn:Hq3; cycle 1.
  { rewrite (question3_invalid _ _ _ _ _ q1 q2 t) in Hrun by done.
    simplify_eq. apply list_elem_of_singleton in Hin. done. }
  rewrite (question3_run _ _ _ _ _ q1 q2 q3 t) in Hrun by done. cbv zeta in Hrun.
  set (w3 := with_state w (q3_store (session_state w) q3 clicked)) in *.
  assert (Hnext : ∀ (w4 : world) e1 x,
            (if truthy (default VNone (session_state w4 !! "review_submitted"))
             then let '(r2, w5, e2) := next_step selection clicked w4 in
                  (r2, w5, q3_widgets q3 ++ e1 ++ e2)
             else (inr x, w4, q3_widgets q3 ++ e1)) = (r, w', evs) →
            Upload path payload ∈ e1).
  { intros w4 e1 x.
    destruct (truthy (default VNone (session_state w4 !! "review_submitted"))).
    - destruct (next_step selection clicked w4) as [[r2 w5] e2] eqn:Hns.
      intros Heq. simplify_eq.
      apply elem_of_app in Hin as [Hin|[Hin|Hin]%elem_of_app]; [|done|].
      + by apply no_upload_elem in Hin; [|apply q3_widgets_no_upload].
      + by apply no_upload_elem in Hin; [|eapply next_step_no_upload].
    - intros Heq. simplify_eq. apply elem_of_app in Hin as [Hin|Hin]; [|done].
      by apply no_upload_elem in Hin; [|apply q3_widgets_no_upload]. }
  case_bool_decide as Hclick; cycle 1.
  { apply (Hnext w3 [] ()) in Hrun. by apply elem_of_nil in Hrun. }
  rewrite (submit_review_run _ _ _ q1 q2 q3) in Hrun; cycle 1.
  { unfold w3. cbn [session_state with_state]. by rewrite q3_store_lookup. }
  { unfold w3. cbn [session_state with_state]. by rewrite q3_store_lookup. }
  { unfold w3. cbn [session_state with_state]. by apply q3_store_q3. }
  change (entries_by_uid w3) with (entries_by_uid w) in Hrun.
  change (session_state w3) with (q3_store (session_state w) q3 clicked) in Hrun.
  destruct (entries_by_uid w !! selection) as [[| | | | |kvs]|] eqn:Hentry;
    try (simplify_eq; rewrite app_nil_r in Hin;
         by apply no_upload_elem in Hin; [|apply q3_widgets_no_upload]).
  cbv zeta in Hrun. exists q3, kvs.
  destruct upload_ok.
  - apply Hnext in Hrun.
    apply elem_of_cons in Hrun as [Heq|Hrun].
    + injection Heq as -> ->. split_and!; done.
    + by apply list_elem_of_singleton in Hrun.
  - simplify_eq.
    apply elem_of_app in Hin as [Hin|Hin];
      [by apply no_upload_elem in Hin; [|apply q3_widgets_no_upload]|].
    apply list_elem_of_singleton in Hin as [= -> ->].
    split_and!; done.
Qed.

(** The value stored for [q3_section] in a record: the text input when the
    second option of question 3 is chosen, otherwise whatever the session
    holds under that key. *)
Definition q3_section_value (ss : gmap string val) (q3 : val) : val :=
  if is_str q3 NO
  then default (VStr "") (ss !! "q3_section")
  else default VNone (ss !! "q3_section").

Lemma form_upload selection clicked upload_ok w r w' evs path payload :
  let ss := session_state w in
  form selection clicked upload_ok w = (r, w', evs) →
  Upload path payload ∈ evs →
  ∃ l q2 q3 kvs,
    q1_answer ss selection = Some l
    ∧ truthy (q1_value l) = true
    ∧ radio_value q2_options (default VNone (ss !! "q2")) = Some q2
    ∧ truthy q2 = true
    ∧ radio_value q3_options (default VNone (ss !! "q3")) = Some q3
    ∧ clicked = Some "submit_review"
    ∧ entries_by_uid w !! selection = Some (VDict kvs)
    ∧ payload
      = VDict (dict_set "review"
                 (review_of (q1_value l) q2 q3 (q3_section_value ss q3)) kvs)
    ∧ (upload_ok = false →
       r = inl UploadError
       ∧ w' = World (q3_store (q2_store ss selection l) q3 clicked)
                (<[selection := payload]> (entries_by_uid w)) (uids w)
                (current_uid w)
       ∧ evs = q1_events ss selection ++ [Rendered "q2"] ++ q3_widgets q3
               ++ [Upload path payload]).
Proof.
  intros ss. rewrite form_run. fold ss. cbv zeta.
  intros Hrun Hin.
  assert (Hq1ev : Upload path payload ∉ q1_events ss selection).
  { eapply no_upload_elem, widgets_no_upload, q1_events_widgets. }
  destruct (entries_by_uid w !! selection) as [[| | | | |kvs0]|] eqn:Hentry0;
    try (simplify_eq; by apply elem_of_nil in Hin).
  destruct (subscript (q_texts_of kvs0) 0) as [e0|t0];
    [simplify_eq; by apply elem_of_nil in Hin|].
  destruct (q1_answer ss selection) as [l|]; [|by simplify_eq].
  destruct (truthy (q1_value l)) eqn:Ht1; [|by simplify_eq].
  destruct (subscript (q_texts_of kvs0) 1) as [e1|t1]; [by simplify_eq|].
  rewrite q2_value_q2_store in Hrun.
  destruct (radio_value q2_options (default VNone (ss !! "q2"))) as [q2|] eqn:Hq2;
    cycle 1.
  { simplify_eq. apply elem_of_app in Hin as [?|Hin]; [done|].
    by apply list_elem_of_singleton in Hin. }
  destruct (question3 _ _ _ _ _) as [[r3 w3] evs3] eqn:Hq3run.
  simplify_eq.
  apply elem_of_app in Hin as [?|Hin]; [done|].
  apply elem_of_cons in Hin as [?|Hin]; [done|].
  pose proof (radio_value_Some _ _ _ Hq2) as Hq2v.
  destruct (question3_upload (q_texts_of kvs0) selection clicked upload_ok
              (with_state w (q2_store ss selection l)) r w' evs3 path payload _ _
              (q2_store_q1 _ _ _) (q2_store_q2 _ _ _) Hq3run Hin)
    as (q3 & kvs & _ & Ht2 & Hq3 & Hclick & Hentry & Hpay & Hfail).
  cbn [session_state with_state entries_by_uid uids current_uid] in *.
  assert (kvs = kvs0) as -> by congruence.
  fold ss in Hq3, Hpay, Hfail, Ht2.
  rewrite q3_value_q2_store in Hq3.
  rewrite q3_store_section, q2_store_other in Hpay by done.
  assert (default VNone
            (if is_str q3 NO then Some (default (VStr "") (ss !! "q3_section"))
             else ss !! "q3_section") = q3_section_value ss q3) as Hsec.
  { unfold q3_section_value. by destruct (is_str q3 NO). }
  rewrite Hsec, <-Hq2v in Hpay. rewrite <-Hq2v in Ht2.
  exists l, q2, q3, kvs0.
  split_and!; try done.
  intros Hok. destruct (Hfail Hok) as (-> & -> & ->). done.
Qed.

(** ** Question 3 and the submit button *)

Lemma next_step_keeps selection clicked w r w' evs k v :
  next_step selection clicked w = (r, w', evs) →
  r ≠ inl RerunException → k ≠ "go_next" → k ≠ "stay" →
  session_state w !! k = Some v → session_state w' !! k = Some v.
Proof.
  rewrite next_step_run. cbv zeta. intros Hrun Hr ? ? Hk.
  repeat case_match; simplify_eq; try done;
    cbn [session_state with_state]; by rewrite !lookup_insert_ne.
Qed.

Lemma q3_widgets_submit q3 : Rendered "submit_review" ∈ q3_widgets q3.
Proof. unfold q3_widgets. destruct (is_str q3 NO); set_solver. Qed.

Lemma q3_widgets_q3 q3 : Rendered "q3" ∈ q3_widgets q3.
Proof. unfold q3_widgets. apply elem_of_app. left. left. Qed.

Lemma question3_shows_submit q_texts selection clicked upload_ok w r w' evs
    q1 q2 q3 t :
  session_state w !! "q1" = Some q1 → truthy q1 = true →
  session_state w !! "q2" = Some q2 → truthy q2 = true →
  subscript q_texts 2 = inr t →
  q3_value (session_state w) = Some q3 →
  question3 q_texts selection clicked upload_ok w = (r, w', evs) →
  (∀ ev, ev ∈ q3_widgets q3 → ev ∈ evs)
  ∧ (r ≠ inl RerunException → session_state w' !! "q3" = Some q3).
Proof.
  intros Hq1 Ht1 Hq2 Ht2 Hp Hq3.
  rewrite (question3_run _ _ _ _ _ q1 q2 q3 t) by done. cbv zeta.
  set (w3 := with_state w (q3_store (session_state w) q3 clicked)).
  assert (Hw3 : session_state w3 !! "q3" = Some q3) by by apply q3_store_q3.
  assert (Hnext : ∀ (w4 : world) e1 x,
            session_state w4 !! "q3" = Some q3 →
            (if truthy (default VNone (session_state w4 !! "review_submitted"))
             then let '(r2, w5, e2) := next_step selection clicked w4 in
                  (r2, w5, q3_widgets q3 ++ e1 ++ e2)
             else (inr x, w4, q3_widgets q3 ++ e1)) = (r, w', evs) →
            (∀ ev, ev ∈ q3_widgets q3 → ev ∈ evs)
            ∧ (r ≠ inl RerunException → session_state w' !! "q3" = Some q3)).
  { intros w4 e1 x Hw4.
    destruct (truthy (default VNone (session_state w4 !! "review_submitted"))).
    - destruct (next_step selection clicked w4) as [[r2 w5] e2] eqn:Hns.
      intros Heq. simplify_eq. split.
      + intros ev Hev. apply elem_of_app. by left.
      + intros Hr. by eapply next_step_keeps.
    - intros Heq. simplify_eq. split; [|done].
      intros ev Hev. apply elem_of_app. by left. }
  case_bool_decide as Hclick; [|by apply Hnext].
  rewrite (submit_review_run _ _ _ q1 q2 q3);
    [|unfold w3; cbn [session_state with_state]; by rewrite q3_store_lookup..
     |done].
  destruct (entries_by_uid w3 !! selection) as [[| | | | |kvs]|];
    try (intros Heq; simplify_eq; split; [|done];
         intros ev Hev; apply elem_of_app; by left).
  cbv zeta. destruct upload_ok.
  - apply Hnext. cbn [session_state with_state].
    by rewrite lookup_insert_ne.
  - intros Heq. simplify_eq. split; [|done].
    intros ev Hev. apply elem_of_app; by left.
Qed.

Ltac solve_elem_of :=
  repeat first [apply list_elem_of_here|apply list_elem_of_further].

Lemma run_eta {A} (x : (exn + A) * world * list event) : x = (x.1.1, x.1.2, x.2).
Proof. by destruct x as [[? ?] ?]. Qed.

(** Question 1 answered with the first box, question 2 with "Accept";
    question 3 not touched yet. *)
Definition answered_world : world :=
  with_inputs fresh_world
    [("q1_article-_style", VBool true); ("q2", VStr "Accept")].

(** The same with the second option of question 3 chosen and a section
    typed in. *)
Definition no_world : world :=
  with_inputs fresh_world
    [("q1_article-_style", VBool true); ("q2", VStr "Accept");
     ("q3", VStr NO); ("q3_section", VStr "History")].

Definition STYLE : string :=
  "Stylistic/clarity: Phrasing redundant or tone is too informal".

(** The items of an entry. *)
Definition items (entry : val) : list (string * val) :=
  match entry with
  | VDict kvs => kvs
  | _ => []
  end.

Definition with_review (entry review : val) : val :=
  match entry with
  | VDict kvs => VDict (dict_set "review" review kvs)
  | _ => entry
  end.

(** ** Claim C3: the review record *)

(** C3 (amended): every review handed to the storage client has, under
    [q3], the value of the question 3 radio: ["Yes"], the literal label
    ["If No, which section:"] (never the string ["No"]), or [None] when
    nothing was chosen; the key [q3_section] is always there, with the text
    of the follow-up input when [q3] is ["If No, which section:"] and
    otherwise with whatever the session holds under [q3_section] ([None]
    when absent). *)
Theorem C3_review_record selection clicked upload_ok w r w' evs path payload :
  form selection clicked upload_ok w = (r, w', evs) →
  Upload path payload ∈ evs →
  ∃ kvs q1 q2 q3,
    payload = VDict kvs
    ∧ dict_get "review" kvs
      = Some (review_of q1 q2 q3 (q3_section_value (session_state w) q3))
    ∧ q3 = default VNone (session_state w !! "q3")
    ∧ (q3 = VNone ∨ q3 = VStr "Yes" ∨ q3 = VStr NO).
Proof.
  intros Hrun Hin.
  destruct (form_upload _ _ _ _ _ _ _ _ _ Hrun Hin)
    as (l & q2 & q3 & kvs & _ & _ & _ & _ & Hq3 & _ & _ & -> & _).
  eexists _, (q1_value l), q2, q3. split_and!; [done|apply dict_get_set|..].
  - by apply radio_value_Some in Hq3.
  - apply radio_value_options in Hq3 as [->|(s & -> & Hs)]; [by left|right].
    unfold q3_options in Hs.
    apply elem_of_cons in Hs as [->|Hs]; [by left|right].
    by apply list_elem_of_singleton in Hs as ->.
Qed.

Definition no_review : val :=
  review_of (VList [VStr STYLE]) (VStr "Accept") (VStr NO) (VStr "History").

Lemma C3_review_record_witness :
  let run := form "article-1" (Some "submit_review") true no_world in
  Upload "test/article-1.json" (with_review dog no_review) ∈ run.2
  ∧ ∃ kvs q1 q2 q3,
      with_review dog no_review = VDict kvs
      ∧ dict_get "review" kvs
        = Some (review_of q1 q2 q3 (q3_section_value (session_state no_world) q3))
      ∧ q3 = default VNone (session_state no_world !! "q3")
      ∧ (q3 = VNone ∨ q3 = VStr "Yes" ∨ q3 = VStr NO).
Proof.
  intros run.
  assert (Hin : Upload "test/article-1.json" (with_review dog no_review) ∈ run.2)
    by (vm_compute; solve_elem_of).
  split; [exact Hin|].
  exact (C3_review_record "article-1" (Some "submit_review") true no_world
           run.1.1 run.1.2 run.2 _ _ (run_eta run) Hin).
Defined.

(** The same with "Yes" chosen for question 3. *)
Definition yes_world : world :=
  with_inputs fresh_world
    [("q1_article-_style", VBool true); ("q2", VStr "Accept"); ("q3", VStr "Yes")].

(** C3 as stated fails: with the second option chosen the record stores its
    label, which is neither ["Yes"] nor ["No"]; and with ["Yes"] chosen the
    record still has the key [q3_section] (holding [None]). *)
Lemma C3_counterexample :
  let no_run := form "article-1" (Some "submit_review") true no_world in
  let yes_run := form "article-1" (Some "submit_review") true yes_world in
  Upload "test/article-1.json"
    (with_review dog
       (review_of (VList [VStr STYLE]) (VStr "Accept")
          (VStr "If No, which section:") (VStr "History"))) ∈ no_run.2
  ∧ VStr "If No, which section:" ≠ VStr "Yes"
  ∧ VStr "If No, which section:" ≠ VStr "No"
  ∧ Upload "test/article-1.json"
      (with_review dog
         (VDict [("q1", VList [VStr STYLE]); ("q2", VStr "Accept");
                 ("q3", VStr "Yes"); ("q3_section", VNone)])) ∈ yes_run.2.
Proof.
  intros no_run yes_run.
  split_and!; [vm_compute; solve_elem_of|done|done|vm_compute; solve_elem_of].
Qed.

(** ** What question 3 leaves alone *)

(** Without a click on "Go to Next Entry", question 3 overwrites only the
    buttons and the submission flag. *)
Lemma question3_keeps q_texts selection clicked upload_ok w r w' evs q1 q2 k v :
  session_state w !! "q1" = Some q1 →
  session_state w !! "q2" = Some q2 →
  question3 q_texts selection clicked upload_ok w = (r, w', evs) →
  r ≠ inl RerunException →
  k ≠ "submit_review" → k ≠ "go_next" → k ≠ "stay" → k ≠ "review_submitted" →
  session_state w !! k = Some v → session_state w' !! k = Some v.
Proof.
  intros Hq1 Hq2 Hrun Hr ? ? ? ? Hk.
  destruct (truthy q1) eqn:Ht1; cycle 1.
  { rewrite (question3_skip _ _ _ _ _ q1) in Hrun by auto. by simplify_eq. }
  destruct (truthy q2) eqn:Ht2; cycle 1.
  { rewrite (question3_skip _ _ _ _ _ q1) in Hrun by eauto. by simplify_eq. }
  destruct (subscript q_texts 2) as [e|t] eqn:Hp.
  { rewrite (question3_noprompt _ _ _ _ _ q1 q2 e) in Hrun by done.
    by simplify_eq. }
  destruct (q3_value (session_state w)) as [q3|] eqn:Hq3; cycle 1.
  { rewrite (question3_invalid _ _ _ _ _ q1 q2 t) in Hrun by done.
    simplify_eq. by apply register_keeps. }
  rewrite (question3_run _ _ _ _ _ q1 q2 q3 t) in Hrun by done. cbv zeta in Hrun.
  set (w3 := with_state w (q3_store (session_state w) q3 clicked)) in *.
  assert (Hk3 : session_state w3 !! k = Some v).
  { unfold w3, q3_store. cbn [session_state with_state].
    rewrite lookup_insert_ne by done.
    destruct (is_str q3 NO); cbn [id]; repeat apply register_keeps; done. }
  assert (Hnext : ∀ (w4 : world) e1 x,
            session_state w4 !! k = Some v →
            (if truthy (default VNone (session_state w4 !! "review_submitted"))
             then let '(r2, w5, e2) := next_step selection clicked w4 in
                  (r2, w5, q3_widgets q3 ++ e1 ++ e2)
             else (inr x, w4, q3_widgets q3 ++ e1)) = (r, w', evs) →
            session_state w' !! k = Some v).
  { intros w4 e1 x Hk4.
    destruct (truthy (default VNone (session_state w4 !! "review_submitted"))).
    - destruct (next_step selection clicked w4) as [[r2 w5] e2] eqn:Hns.
      intros Heq. simplify_eq. by eapply next_step_keeps.
    - intros Heq. by simplify_eq. }
  case_bool_decide as Hclick; [|by eapply Hnext].
  rewrite (submit_review_run _ _ _ q1 q2 q3) in Hrun;
    [|unfold w3; cbn [session_state with_state]; by rewrite q3_store_lookup..
     |unfold w3; cbn [session_state with_state]; by apply q3_store_q3].
  destruct (entries_by_uid w3 !! selection) as [[| | | | |kvs]|];
    try by simplify_eq.
  cbv zeta in Hrun. destruct upload_ok.
  - eapply Hnext; [|exact Hrun]. cbn [session_state with_state].
    by rewrite lookup_insert_ne.
  - by simplify_eq.
Qed.

(** Question 1 draws its own widgets only. *)
Lemma q1_events_other ss selection k :
  key_startswith k "q1_" = false → Rendered k ∉ q1_events ss selection.
Proof.
  intros Hk Hin. pose proof (q1_events_widgets ss selection) as Hall.
  rewrite Forall_forall in Hall.
  destruct (Hall _ Hin) as (k' & [= <-] & Hk'). congruence.
Qed.

(** ** Claim C2: what only "other" gives *)

(** C2 (amended): on an entry that has a first prompt, when "other" is the
    only box checked and its text is empty once stripped, the selected list
    is exactly the label of that box, ["Other:"] (the empty text adds no
    "Other (Please specify ...)" item): [q1] is set, and the run goes on
    to question 2, whose radio is drawn when the entry has a second prompt;
    when it has none, line 281 raises before the radio. *)
Theorem C2_only_other_is_an_answer selection clicked upload_ok w kvs t0 r w' evs :
  only_other (session_state w) selection →
  entries_by_uid w !! selection = Some (VDict kvs) →
  subscript (q_texts_of kvs) 0 = inr t0 →
  form selection clicked upload_ok w = (r, w', evs) →
  (r ≠ inl RerunException →
   session_state w' !! "q1" = Some (VList [VStr "Other:"]))
  ∧ match subscript (q_texts_of kvs) 1 with
    | inr _ => Rendered "q2" ∈ evs
    | inl e => r = inl e ∧ (Rendered "q2" ∉ evs)
    end.
Proof.
  intros Hother Hentry Hp0. rewrite form_run, Hentry. cbv zeta. rewrite Hp0.
  rewrite (q1_answer_only_other _ _ Hother).
  change (truthy (q1_value [VStr "Other:"])) with true. cbv iota.
  remember (q1_events (session_state w) selection) as evs1 eqn:Hevs1.
  destruct (subscript (q_texts_of kvs) 1) as [e|t1].
  { intros [= <- <- <-]. cbn [session_state with_state]. split_and!.
    - intros _. apply lookup_insert_eq.
    - done.
    - rewrite Hevs1. by apply q1_events_other. }
  rewrite q2_value_q2_store.
  destruct (radio_value q2_options _) as [q2|] eqn:Hq2.
  - destruct (question3 _ _ _ _ _) as [[r3 w3] evs3] eqn:Hq3run.
    intros [= <- <- <-]. split.
    + intros Hr.
      eapply (question3_keeps _ _ _ _
                (with_state w (q2_store (session_state w) selection [VStr "Other:"])));
        [apply q2_store_q1|apply q2_store_q2|exact Hq3run|done..|].
      apply q2_store_q1.
    + apply elem_of_app. right. left.
  - intros [= <- <- <-]. split.
    + intros _. apply q2_store_q1.
    + apply elem_of_app. right. left.
Qed.

Lemma C2_only_other_is_an_answer_witness :
  let run := form "article-1" None true only_other_world in
  only_other (session_state only_other_world) "article-1"
  ∧ session_state run.1.2 !! "q1" = Some (VList [VStr "Other:"])
  ∧ Rendered "q2" ∈ run.2.
Proof.
  intros run.
  assert (Hex : only_other (session_state only_other_world) "article-1").
  { split.
    - intros subkey label Hin. unfold q1_options in Hin.
      repeat (apply elem_of_cons in Hin as [[= -> ->]|Hin]; [by vm_compute|]).
      by apply elem_of_nil in Hin.
    - exists "". by vm_compute. }
  assert (Hentry : entries_by_uid only_other_world !! "article-1"
                   = Some (VDict (items dog))) by reflexivity.
  assert (Hp0 : ∃ t0, subscript (q_texts_of (items dog)) 0 = inr t0)
    by (eexists; reflexivity).
  destruct Hp0 as [t0 Hp0].
  destruct (C2_only_other_is_an_answer "article-1" None true only_other_world
              (items dog) t0 run.1.1 run.1.2 run.2 Hex Hentry Hp0 (run_eta run))
    as [Hq1 Hq2].
  split_and!; [exact Hex| |exact Hq2].
  apply Hq1. by vm_compute.
Defined.

(** C2 as stated fails: with only "other" checked and no text, [q1] is set
    (it is not left unset) and question 2 is rendered. *)
Lemma C2_counterexample :
  let run := form "article-1" None true only_other_world in
  only_other (session_state only_other_world) "article-1"
  ∧ run.1.1 = inr ()
  ∧ session_state run.1.2 !! "q1" = Some (VList [VStr "Other:"])
  ∧ truthy (default VNone (session_state run.1.2 !! "q1")) = true
  ∧ Rendered "q2" ∈ run.2.
Proof.
  intros run.
  split_and!; [apply only_other_example|by vm_compute..|vm_compute; solve_elem_of].
Qed.

(** ** Claim C7: the storage client raises *)






(** ** Claim C9: question 3 before any choice *)

(** Whether the store has the box [subkey] of [selection] checked. *)
Definition box_checked (ss : gmap string val) (selection subkey : string) : bool :=
  truthy (default (VBool false) (ss !! (q1_key_prefix selection +:+ "_" +:+ subkey))).

(** Question 1 is answered: some box is checked, and if it is "other",
    what the store holds for its text is a string, as a text input's value
    is. *)
Definition q1_answered (ss : gmap string val) (selection : string) : Prop :=
  (∃ subkey label, (subkey, label) ∈ q1_options
                   ∧ box_checked ss selection subkey = true)
  ∧ (box_checked ss selection "other" = true →
     ∃ t, default (VStr "") (ss !! other_text_key selection) = VStr t).

(** Question 2 is answered: the store holds one of its options. *)
Definition q2_answered (ss : gmap string val) : Prop :=
  ∃ s, ss !! "q2" = Some (VStr s) ∧ s ∈ q2_options.

Lemma q1_scan_checked ss selection options selected show_other :
  q1_scan ss (q1_key_prefix selection) options selected show_other
  = (selected
     ++ (VStr <$> (filter (λ p, box_checked ss selection p.1 = true) options).*2),
     show_other
     || existsb (λ p, box_checked ss selection p.1 && String.eqb p.1 "other")
          options).
Proof.
  revert selected show_other.
  induction options as [|[subkey label] options IH]; intros selected show_other.
  { simpl. by rewrite app_nil_r, orb_false_r. }
  cbn [q1_scan]. fold (box_checked ss selection subkey).
  rewrite filter_cons. cbn [fst].
  destruct (box_checked ss selection subkey) eqn:Hb.
  - rewrite decide_True by done. rewrite IH.
    cbn [existsb fst]. rewrite Hb. csimpl.
    f_equal; [by rewrite <-app_assoc|by rewrite orb_assoc].
  - rewrite decide_False by done. rewrite IH.
    cbn [existsb fst]. by rewrite Hb.
Qed.

Lemma q1_answer_answered ss selection :
  q1_answered ss selection →
  ∃ l, q1_answer ss selection = Some l ∧ truthy (q1_value l) = true.
Proof.
  intros [(subkey & label & Hin & Hb) Htext]. unfold q1_answer.
  rewrite q1_scan_checked. cbn [app orb].
  set (labels := (filter _ q1_options).*2).
  assert (Hne : ∃ x xs, VStr <$> labels = x :: xs).
  { assert (Hl : label ∈ labels).
    { apply list_elem_of_fmap. exists (subkey, label). split; [done|].
      by apply list_elem_of_filter. }
    destruct labels; [by apply elem_of_nil in Hl|]. by eexists _, _. }
  destruct Hne as (x & xs & ->).
  destruct (existsb _ _) eqn:Hex; [|by eexists].
  apply existsb_exists in Hex as ([sk lb] & _ & [Hb' Heq]%andb_true_iff).
  cbn [fst] in Hb', Heq. apply String.eqb_eq in Heq as ->.
  destruct (Htext Hb') as (t & Ht). unfold other_text_key in Ht. rewrite Ht.
  destruct (truthy (VStr (strip t))); by eexists.
Qed.

Lemma q2_options_truthy s : s ∈ q2_options → truthy (VStr s) = true.
Proof.
  unfold q2_options. intros Hs.
  repeat (apply elem_of_cons in Hs as [->|Hs]; [done|]).
  by apply elem_of_nil in Hs.
Qed.

(** A click on submit with all three questions drawn calls the storage
    client with the review in the entry. *)
Lemma question3_submits q_texts selection upload_ok w r w' evs q1 q2 q3 t kvs :
  session_state w !! "q1" = Some q1 → truthy q1 = true →
  session_state w !! "q2" = Some q2 → truthy q2 = true →
  subscript q_texts 2 = inr t →
  q3_value (session_state w) = Some q3 →
  entries_by_uid w !! selection = Some (VDict kvs) →
  question3 q_texts selection (Some "submit_review") upload_ok w = (r, w', evs) →
  ∃ q3_section,
    Upload ("test/" +:+ selection +:+ ".json")
      (VDict (dict_set "review" (review_of q1 q2 q3 q3_section) kvs)) ∈ evs.
Proof.
  intros Hq1 Ht1 Hq2 Ht2 Hp Hq3 Hentry.
  rewrite (question3_run _ _ _ _ _ q1 q2 q3 t) by done. cbv zeta.
  set (w3 := with_state w (q3_store (session_state w) q3 (Some "submit_review"))).
  rewrite bool_decide_eq_true_2 by done.
  rewrite (submit_review_run _ _ _ q1 q2 q3);
    [|unfold w3; cbn [session_state with_state]; by rewrite q3_store_lookup..
     |unfold w3; cbn [session_state with_state]; by apply q3_store_q3].
  change (entries_by_uid w3) with (entries_by_uid w). rewrite Hentry. cbv zeta.
  remember (q3_widgets q3) as widgets eqn:Hwidgets.
  intros Hrun. exists (default VNone (session_state w3 !! "q3_section")).
  destruct upload_ok.
  - destruct (truthy _) in Hrun.
    + destruct (next_step _ _ _) as [[r2 w5] e2] in Hrun.
      injection Hrun as <- <- <-.
      apply elem_of_app. right. apply list_elem_of_here.
    + injection Hrun as <- <- <-.
      apply elem_of_app. right. apply list_elem_of_here.
  - injection Hrun as <- <- <-.
    apply elem_of_app. right. apply list_elem_of_here.
Qed.

(** C9 (amended): whenever questions 1 and 2 are answered on an entry that
    has three prompts, the question 3 radio and the submit button are drawn
    in the same run, so a review can be submitted without a choice for
    question 3.  The script seeds the key [q3] with [None] (line 196)
    before the radio exists, so with no choice made the radio takes that
    stored [None] rather than its default ["Yes"]: the store keeps
    [q3 = None], and a click on submit hands the storage client a review
    with [q3 = None].  On an entry without a third prompt line 288 raises
    before the radio, and neither the radio nor the button is drawn. *)
Theorem C9_q3_starts_unselected selection clicked upload_ok w kvs t0 t1 r w' evs :
  entries_by_uid w !! selection = Some (VDict kvs) →
  subscript (q_texts_of kvs) 0 = inr t0 →
  subscript (q_texts_of kvs) 1 = inr t1 →
  q1_answered (session_state w) selection →
  q2_answered (session_state w) →
  default VNone (session_state w !! "q3") = VNone →
  form selection clicked upload_ok w = (r, w', evs) →
  match subscript (q_texts_of kvs) 2 with
  | inl e =>
      r = inl e ∧ (Rendered "q3" ∉ evs) ∧ (Rendered "submit_review" ∉ evs)
  | inr _ =>
      Rendered "q3" ∈ evs
      ∧ Rendered "submit_review" ∈ evs
      ∧ (r ≠ inl RerunException → session_state w' !! "q3" = Some VNone)
      ∧ (clicked = Some "submit_review" →
         ∃ q1 q2 q3_section,
           Upload ("test/" +:+ selection +:+ ".json")
             (VDict (dict_set "review" (review_of q1 q2 VNone q3_section) kvs))
           ∈ evs)
      ∧ (∀ path payload,
           Upload path payload ∈ evs →
           ∃ q1 q2 q3_section,
             payload
             = VDict (dict_set "review" (review_of q1 q2 VNone q3_section) kvs))
  end.
Proof.
  intros Hentry Hp0 Hp1 Hq1 (s & Hs & Hopt) Hnone Hrun.
  pose proof Hrun as Hform. revert Hrun.
  rewrite form_run, Hentry. cbv zeta. rewrite Hp0.
  destruct (q1_answer_answered _ _ Hq1) as (l & -> & Ht1). rewrite Ht1, Hp1.
  rewrite q2_value_q2_store, Hs. cbn [default from_option id radio_value].
  rewrite bool_decide_eq_true_2 by done.
  destruct (question3 _ _ _ _ _) as [[r3 w3] evs3] eqn:Hq3run.
  remember (q1_events (session_state w) selection) as evs1 eqn:Hevs1.
  intros [= <- <- <-].
  set (ss := session_state w) in *.
  assert (Hw1 : session_state (with_state w (q2_store ss selection l)) !! "q1"
                = Some (q1_value l)) by apply q2_store_q1.
  assert (Hw2 : session_state (with_state w (q2_store ss selection l)) !! "q2"
                = Some (VStr s)).
  { cbn [session_state with_state]. by rewrite q2_store_q2, Hs. }
  assert (Ht2 : truthy (VStr s) = true) by by apply q2_options_truthy.
  assert (Hw3 : q3_value (session_state (with_state w (q2_store ss selection l)))
                = Some VNone).
  { cbn [session_state with_state]. by rewrite q3_value_q2_store, Hnone. }
  destruct (subscript (q_texts_of kvs) 2) as [e|t2] eqn:Hp2.
  { rewrite (question3_noprompt _ _ _ _ _ _ _ e Hw1 Ht1 Hw2 Ht2 Hp2) in Hq3run.
    injection Hq3run as <- <- <-. cbn [app].
    split_and!; [done|..].
    all: intros [Hin|Hin]%elem_of_app;
      [rewrite Hevs1 in Hin; by eapply q1_events_other in Hin
      |by apply list_elem_of_singleton in Hin]. }
  destruct (question3_shows_submit _ _ _ _ _ _ _ _ _ _ _ _
              Hw1 Ht1 Hw2 Ht2 Hp2 Hw3 Hq3run) as [Hshown Hkept].
  split_and!.
  - apply elem_of_app. right. right. apply Hshown, q3_widgets_q3.
  - apply elem_of_app. right. right. apply Hshown, q3_widgets_submit.
  - done.
  - intros ->.
    destruct (question3_submits _ _ _ _ _ _ _ _ _ _ _ kvs
                Hw1 Ht1 Hw2 Ht2 Hp2 Hw3 Hentry Hq3run) as [q3_section Hup].
    exists (q1_value l), (VStr s), q3_section.
    apply elem_of_app. right. by right.
  - intros path payload Hin.
    destruct (form_upload _ _ _ _ _ _ _ _ _ Hform Hin)
      as (l' & q2 & q3 & kvs' & _ & _ & _ & _ & Hr3 & _ & Hentry' & -> & _).
    fold ss in Hr3. rewrite Hnone in Hr3. apply radio_value_Some in Hr3 as ->.
    assert (kvs' = kvs) as -> by congruence.
    by eexists _, _, _.
Qed.

Lemma C9_q3_starts_unselected_witness :
  let run := form "article-1" (Some "submit_review") true answered_world in
  (q1_answered (session_state answered_world) "article-1"
   ∧ q2_answered (session_state answered_world)
   ∧ default VNone (session_state answered_world !! "q3") = VNone)
  ∧ Rendered "q3" ∈ run.2
  ∧ Rendered "submit_review" ∈ run.2
  ∧ session_state run.1.2 !! "q3" = Some VNone
  ∧ ∃ q1 q2 q3_section,
      Upload "test/article-1.json"
        (with_review dog (review_of q1 q2 VNone q3_section)) ∈ run.2.
Proof.
  intros run.
  assert (Hq1 : q1_answered (session_state answered_world) "article-1").
  { split.
    - exists "style", STYLE. split; [apply list_elem_of_here|by vm_compute].
    - intros Hb. by vm_compute in Hb. }
  assert (Hq2 : q2_answered (session_state answered_world)).
  { exists "Accept". split; [by vm_compute|apply list_elem_of_here]. }
  assert (Hnone : default VNone (session_state answered_world !! "q3") = VNone)
    by (vm_compute; reflexivity).
  split; [exact (conj Hq1 (conj Hq2 Hnone))|].
  assert (Hentry : entries_by_uid answered_world !! "article-1"
                   = Some (VDict (items dog))) by reflexivity.
  assert (Hp : ∃ t0 t1, subscript (q_texts_of (items dog)) 0 = inr t0
                        ∧ subscript (q_texts_of (items dog)) 1 = inr t1)
    by (eexists _, _; split; reflexivity).
  destruct Hp as (t0 & t1 & Hp0 & Hp1).
  destruct (C9_q3_starts_unselected "article-1" (Some "submit_review") true
              answered_world (items dog) t0 t1 run.1.1 run.1.2 run.2
              Hentry Hp0 Hp1 Hq1 Hq2 Hnone (run_eta run))
    as (Hr & Hs & Hk & Hup & _).
  split_and!; [exact Hr|exact Hs| |exact (Hup eq_refl)].
  apply Hk. by vm_compute.
Defined.

(** C9 as stated fails: with questions 1 and 2 answered and question 3 never
    touched, the radio holds [None], not ["Yes"], and the review that a click
    on submit stores has [q3 = None]. *)
Lemma C9_counterexample :
  let shown := form "article-1" None true answered_world in
  let submitted := form "article-1" (Some "submit_review") true answered_world in
  Rendered "q3" ∈ shown.2
  ∧ session_state shown.1.2 !! "q3" = Some VNone
  ∧ session_state shown.1.2 !! "q3" ≠ Some (VStr "Yes")
  ∧ submitted.1.1 = inr ()
  ∧ Upload "test/article-1.json"
      (with_review dog
         (review_of (VList [VStr STYLE]) (VStr "Accept") VNone VNone))
    ∈ submitted.2.
Proof.
  intros shown submitted.
  split_and!; [vm_compute; solve_elem_of|by vm_compute..|vm_compute; solve_elem_of].
Qed.

(** ** Claim C4: what "Go to Next Entry" clears *)

Lemma next_step_rerun selection clicked w w' evs :
  next_step selection clicked w = (inl RerunException, w', evs) →
  clicked = Some "go_next"
  ∧ session_state w'
    = filter (λ kv, go_next_key kv.1 = false)
        (<["go_next" := VBool true]> (session_state w))
  ∧ current_uid w' = next_uid (uids w) selection.
Proof.
  rewrite next_step_run. cbv zeta. intros Hrun.
  destruct (next_uid (uids w) selection) as [next|]; [|done].
  destruct (entries_by_uid w !! next) as [[| | | | |kvs]|]; try done.
  destruct (dict_get "entity_id" kvs); [|done].
  case_bool_decide; by simplify_eq.
Qed.

Lemma question3_rerun q_texts selection clicked upload_ok w w' evs q1 q2 :
  session_state w !! "q1" = Some q1 →
  session_state w !! "q2" = Some q2 →
  question3 q_texts selection clicked upload_ok w = (inl RerunException, w', evs) →
  ∃ q3,
    truthy q1 = true ∧ truthy q2 = true
    ∧ q3_value (session_state w) = Some q3
    ∧ clicked = Some "go_next"
    ∧ session_state w'
      = filter (λ kv, go_next_key kv.1 = false)
          (<["go_next" := VBool true]> (q3_store (session_state w) q3 clicked))
    ∧ current_uid w' = next_uid (uids w) selection.
Proof.
  intros Hq1 Hq2 Hrun.
  destruct (truthy q1) eqn:Ht1; cycle 1.
  { rewrite (question3_skip _ _ _ _ _ q1) in Hrun by auto. done. }
  destruct (truthy q2) eqn:Ht2; cycle 1.
  { rewrite (question3_skip _ _ _ _ _ q1) in Hrun by eauto. done. }
  destruct (subscript q_texts 2) as [e|t] eqn:Hp.
  { rewrite (question3_noprompt _ _ _ _ _ q1 q2 e) in Hrun by done.
    simplify_eq. by apply subscript_error in Hp as [?|[?|?]]. }
  destruct (q3_value (session_state w)) as [q3|] eqn:Hq3; cycle 1.
  { rewrite (question3_invalid _ _ _ _ _ q1 q2 t) in Hrun by done. done. }
  rewrite (question3_run _ _ _ _ _ q1 q2 q3 t) in Hrun by done. cbv zeta in Hrun.
  set (w3 := with_state w (q3_store (session_state w) q3 clicked)) in *.
  exists q3.
  case_bool_decide as Hclick.
  - rewrite (submit_review_run _ _ _ q1 q2 q3) in Hrun; cycle 1.
    { unfold w3. cbn [session_state with_state]. by rewrite q3_store_lookup. }
    { unfold w3. cbn [session_state with_state]. by rewrite q3_store_lookup. }
    { unfold w3. cbn [session_state with_state]. by apply q3_store_q3. }
    destruct (entries_by_uid w3 !! selection) as [[| | | | |kvs]|]; try done.
    cbv zeta in Hrun. destruct upload_ok; [|done].
    destruct (truthy _); [|done].
    destruct (next_step _ _ _) as [[r2 w5] e2] eqn:Hns.
    simplify_eq. by apply next_step_rerun in Hns as [? _].
  - destruct (truthy _); [|done].
    destruct (next_step _ _ _) as [[r2 w5] e2] eqn:Hns.
    simplify_eq. apply next_step_rerun in Hns as (? & ? & ?). done.
Qed.

(** The only way a run of the form ends in [st.rerun()]. *)
Lemma form_rerun selection clicked upload_ok w w' evs :
  let ss := session_state w in
  form selection clicked upload_ok w = (inl RerunException, w', evs) →
  ∃ l q2 q3,
    q1_answer ss selection = Some l
    ∧ radio_value q2_options (default VNone (ss !! "q2")) = Some q2
    ∧ truthy q2 = true
    ∧ clicked = Some "go_next"
    ∧ session_state w'
      = filter (λ kv, go_next_key kv.1 = false)
          (<["go_next" := VBool true]>
             (q3_store (q2_store ss selection l) q3 clicked))
    ∧ current_uid w' = next_uid (uids w) selection.
Proof.
  intros ss. rewrite form_run. fold ss. cbv zeta. intros Hrun.
  destruct (entries_by_uid w !! selection) as [[| | | | |kvs0]|]; try done.
  destruct (subscript (q_texts_of kvs0) 0) as [e0|t0] eqn:Hp0;
    [simplify_eq; by apply subscript_error in Hp0 as [?|[?|?]]|].
  destruct (q1_answer ss selection) as [l|]; [|done].
  destruct (truthy (q1_value l)) eqn:Ht1; [|done].
  destruct (subscript (q_texts_of kvs0) 1) as [e1|t1] eqn:Hp1;
    [simplify_eq; by apply subscript_error in Hp1 as [?|[?|?]]|].
  rewrite q2_value_q2_store in Hrun.
  destruct (radio_value q2_options (default VNone (ss !! "q2"))) as [q2|] eqn:Hq2;
    [|done].
  destruct (question3 _ _ _ _ _) as [[r3 w3] evs3] eqn:Hq3run.
  simplify_eq.
  pose proof (radio_value_Some _ _ _ Hq2) as Hq2v.
  destruct (question3_rerun (q_texts_of kvs0) selection clicked upload_ok
              (with_state w (q2_store ss selection l)) w' evs3 _ _
              (q2_store_q1 _ _ _) (q2_store_q2 _ _ _) Hq3run)
    as (q3 & _ & Ht2 & _ & Hclick & Hss & Hcur).
  exists l, q2, q3. rewrite Hq2v. split_and!; done.
Qed.

Lemma key_startswith_inv k p : key_startswith k p = true → ∃ r, k = p +:+ r.
Proof.
  revert k. induction p as [|c p IH]; intros k; simpl; [by exists k|].
  destruct k as [|d k]; [done|].
  intros [->%Ascii.eqb_eq (r & ->)%IH]%andb_true_iff. by exists r.
Qed.

Lemma go_next_key_checkbox k :
  key_startswith k "q1_" = true → go_next_key k = false.
Proof. by intros (r & ->)%key_startswith_inv. Qed.

(** An option can be labelled when its entry is a dict with [entity_id]. *)
Definition labelled (w : world) (uid : string) : Prop :=
  ∃ kvs v, entries_by_uid w !! uid = Some (VDict kvs)
           ∧ dict_get "entity_id" kvs = Some v.

Lemma format_func_run uid w :
  format_func uid w
  = match entries_by_uid w !! uid with
    | Some (VDict kvs) =>
        match dict_get "entity_id" kvs with
        | Some _ => (inr (), w, [])
        | None => (inl (KeyError "entity_id"), w, [])
        end
    | Some _ => (inl TypeError, w, [])
    | None => (inl (KeyError uid), w, [])
    end.
Proof.
  unfold format_func, entry_item. rewrite !bind_run. cbn [get_world].
  destruct (entries_by_uid w !! uid) as [[| | | | |kvs]|]; try done.
  cbn. by destruct (dict_get "entity_id" kvs).
Qed.

(** Labelling the options draws nothing and leaves the world alone. *)
Lemma format_options_pure options w :
  ∃ r, format_options options w = (r, w, []).
Proof.
  induction options as [|uid options [r IH]]; [by exists (inr ())|].
  cbn [format_options]. rewrite bind_run, format_func_run.
  destruct (entries_by_uid w !! uid) as [[| | | | |kvs]|]; try by eexists.
  destruct (dict_get "entity_id" kvs); [|by eexists].
  rewrite IH. by exists r.
Qed.

Lemma format_options_ok options w :
  Forall (labelled w) options → format_options options w = (inr (), w, []).
Proof.
  induction 1 as [|uid options (kvs & v & Hentry & Hid) _ IH]; [done|].
  cbn [format_options]. rewrite bind_run, format_func_run, Hentry, Hid.
  by rewrite IH.
Qed.

Lemma format_options_raise options w e w' evs :
  format_options options w = (inl e, w', evs) →
  ∃ uid, uid ∈ options ∧ ¬ labelled w uid.
Proof.
  revert e w' evs.
  induction options as [|uid options IH]; intros e w' evs; [done|].
  cbn [format_options]. rewrite bind_run, format_func_run.
  destruct (entries_by_uid w !! uid) as [[| | | | |kvs]|] eqn:Hentry;
    try (intros _; exists uid; split; [apply list_elem_of_here|];
         intros (? & ? & ? & ?); congruence).
  destruct (dict_get "entity_id" kvs) eqn:Hid.
  - destruct (format_options options w) as [[[e'|[]] w1] evs1] eqn:Hrest;
      [|done].
    intros _. destruct (IH _ _ _ eq_refl) as (uid' & Hin & Hno).
    exists uid'. split; [by apply list_elem_of_further|done].
  - intros _. exists uid. split; [apply list_elem_of_here|].
    intros (? & ? & ? & ?). congruence.
Qed.

(** The sidebar's loop leaves no key that starts with ["q"]. *)
Lemma select_entry_clears new_selection w w' k :
  new_selection ≠ default new_selection (current_uid w) →
  select_entry new_selection w = (inr new_selection, w', []) →
  key_startswith k "q" = true → session_state w' !! k = None.
Proof.
  unfold select_entry. rewrite bind_run. cbn [get_world].
  destruct (current_uid w) as [selection|]; simpl; [|done].
  intros Hne. destruct (list_index selection (uids w)); [|by case_bool_decide].
  rewrite bind_run. destruct (format_options_pure (uids w) w) as [r ->].
  destruct r as [e|[]]; [done|].
  rewrite bool_decide_eq_true_2 by done.
  intros [= <-] Hk. cbn [session_state].
  apply map_lookup_filter_None. right. intros v _.
  unfold selection_reset_key. simpl. rewrite Hk. done.
Qed.

(** C4 (what the code does instead): when a run ends with the click on
    "Go to Next Entry", the store handed to the next run has lost [q1], [q3]
    and [review_submitted], but it still has the answer to question 2 under
    [q2] and every checkbox of question 1 under its key [q1_<uid[:8]>_..];
    the current entry is the next one. *)
Theorem C4_go_next_keeps_answers selection clicked upload_ok w w' evs :
  form selection clicked upload_ok w = (inl RerunException, w', evs) →
  (∃ s, session_state w' !! "q2" = Some (VStr s) ∧ s ∈ q2_options)
  ∧ (∀ k v, key_startswith k "q1_" = true →
            session_state w !! k = Some v → session_state w' !! k = Some v)
  ∧ session_state w' !! "q1" = None
  ∧ session_state w' !! "q3" = None
  ∧ session_state w' !! "review_submitted" = None
  ∧ current_uid w' = next_uid (uids w) selection.
Proof.
  intros Hrun.
  destruct (form_rerun _ _ _ _ _ _ Hrun)
    as (l & q2 & q3 & Hq1 & Hq2 & Ht2 & Hclick & -> & Hcur).
  split_and!; [| |by apply map_lookup_filter_None; right; intros ?? [=]..|done].
  - destruct (truthy_radio_value _ _ _ Hq2 Ht2) as (s & -> & Hs).
    exists s. split; [|done].
    apply map_lookup_filter_Some. split; [|done].
    rewrite lookup_insert_ne, q3_store_lookup by done.
    rewrite q2_store_q2. by apply radio_value_Some in Hq2 as ->.
  - intros k v Hk Hv.
    apply map_lookup_filter_Some. split; [|by apply go_next_key_checkbox].
    assert (k ≠ "go_next" ∧ k ≠ "submit_review" ∧ k ≠ "q3_section"
            ∧ k ≠ "q3" ∧ k ≠ "q1") as (? & ? & ? & ? & ?)
      by (split_and!; by intros ->).
    rewrite lookup_insert_ne, q3_store_lookup by done.
    by apply q2_store_keeps.
Qed.

(** The store after the review of ["article-1"] was submitted. *)
Definition submitted_world : world :=
  with_inputs fresh_world
    [("q1_article-_style", VBool true); ("q1", VList [VStr STYLE]);
     ("q2", VStr "Accept"); ("q3", VStr "Yes");
     ("review_submitted", VBool true)].

Lemma C4_go_next_keeps_answers_witness :
  let run := form "article-1" (Some "go_next") true submitted_world in
  let next := form "article-2" None true run.1.2 in
  run.1.1 = inl RerunException
  ∧ current_uid run.1.2 = Some "article-2"
  ∧ session_state run.1.2 !! "q2" = Some (VStr "Accept")
  ∧ session_state run.1.2 !! "q1_article-_style" = Some (VBool true)
  ∧ next.1.1 = inr ()
  ∧ session_state next.1.2 !! "q1" = Some (VList [VStr STYLE])
  ∧ Rendered "q2" ∈ next.2 ∧ Rendered "q3" ∈ next.2.
Proof.
  intros run next.
  assert (Hr : run.1.1 = inl RerunException) by (by vm_compute).
  pose proof (run_eta run) as Hrun. rewrite Hr in Hrun.
  destruct (C4_go_next_keeps_answers _ _ _ _ _ _ Hrun)
    as ((s & Hq2 & Hs) & Hboxes & _ & _ & _ & Hcur).
  split_and!; [done|by rewrite Hcur|by vm_compute| |by vm_compute..
              |vm_compute; solve_elem_of|vm_compute; solve_elem_of].
  by apply Hboxes.
Defined.

(** ** Claim C8: the entry after the current one *)

(** The keys of [entries_by_uid] are pairwise different. *)
Lemma index_entries_NoDup entries by_uid us by_uid' us' :
  NoDup us →
  Loader.index_entries entries by_uid us = Some (by_uid', us') → NoDup us'.
Proof.
  revert by_uid us. induction entries as [|e entries IH]; intros by_uid us Hnd; simpl.
  - by intros [= _ <-].
  - destruct e as [| | | | |kvs]; try done.
    destruct (dict_get "uid" kvs) as [[| | |u| |]|]; try done.
    apply IH. case_bool_decide; [done|].
    apply NoDup_app. split_and!; [done| |apply NoDup_singleton].
    intros x Hx ->%list_elem_of_singleton. done.
Qed.

(** [uids.index(u)] on a list without repetition is the position of [u]. *)
Lemma list_index_NoDup `{EqDecision A} (us : list A) k u :
  NoDup us → us !! k = Some u → list_index u us = Some k.
Proof.
  intros Hnd. revert k. induction Hnd as [|x us Hx Hnd IH]; intros k; [done|].
  destruct k as [|k]; simpl.
  - intros [= ->]. by rewrite decide_True.
  - intros Hk. rewrite decide_False.
    + by rewrite (IH k Hk).
    + intros ->. by apply list_elem_of_lookup_2 in Hk.
Qed.

(** A click on "Go to Next Entry", when the next entry can be labelled:
    the button is drawn, the run ends in a rerun, and the next entry is the
    current one. *)
Lemma next_step_go_next selection w next :
  next_uid (uids w) selection = Some next →
  labelled w next →
  ∃ w' evs,
    next_step selection (Some "go_next") w = (inl RerunException, w', evs)
    ∧ current_uid w' = Some next
    ∧ uids w' = uids w
    ∧ entries_by_uid w' = entries_by_uid w
    ∧ Rendered "go_next" ∈ evs.
Proof.
  intros Hnext (kvs & entity_id & Hentry & Hid).
  rewrite next_step_run, Hnext, Hentry, Hid. cbv zeta.
  rewrite bool_decide_eq_true_2 by done.
  eexists _, _. split_and!; [done..|].
  apply list_elem_of_further, list_elem_of_here.
Qed.

(** C8: in the list of uids that the upload builds, the entry after the one
    at index [k] is the one at index [(k + 1) mod N]: index [k + 1] when
    [k < N - 1], index [0] from the last entry.  A click on "Go to Next
    Entry" selects it: in every world with these uids where that entry can
    be labelled (as it must be for the select box of line 111 to be drawn),
    the handler ends the run in a rerun with that entry as the current one;
    and no run of the next-step block ends in a rerun with another one. *)
Theorem C8_next_entry_wraps entries by_uid us k u :
  Loader.index_entries entries ∅ [] = Some (by_uid, us) →
  us !! k = Some u →
  next_idx us u = Some ((k + 1) `mod` length us)
  ∧ next_uid us u = us !! ((k + 1) `mod` length us)
  ∧ (k + 1 < length us → next_uid us u = us !! (k + 1))
  ∧ (k + 1 = length us → next_uid us u = us !! 0)
  ∧ is_Some (next_uid us u)
  ∧ (∀ w next,
       uids w = us →
       us !! ((k + 1) `mod` length us) = Some next →
       labelled w next →
       ∃ w' evs,
         next_step u (Some "go_next") w = (inl RerunException, w', evs)
         ∧ current_uid w' = Some next
         ∧ Rendered "go_next" ∈ evs)
  ∧ ∀ clicked w w' evs,
      uids w = us →
      next_step u clicked w = (inl RerunException, w', evs) →
      current_uid w' = us !! ((k + 1) `mod` length us).
Proof.
  intros Hidx Hk.
  assert (Hnd : NoDup us) by (eapply index_entries_NoDup, Hidx; constructor).
  assert (Hlen : k < length us) by (by eapply lookup_lt_Some).
  assert (Hi : next_idx us u = Some ((k + 1) `mod` length us)).
  { unfold next_idx. by rewrite (list_index_NoDup us k u). }
  assert (Hu : next_uid us u = us !! ((k + 1) `mod` length us)).
  { unfold next_uid. by rewrite Hi. }
  split_and!; [done|done|..].
  - intros Hlt. by rewrite Hu, Nat.mod_small.
  - intros Heq. by rewrite Hu, Heq, Nat.Div0.mod_same.
  - rewrite Hu. apply lookup_lt_is_Some, Nat.mod_upper_bound. lia.
  - intros w next Hus Hnext Hlabel.
    destruct (next_step_go_next u w next) as (w' & evs & Hrun & Hcur & _ & _ & Hev);
      [by rewrite Hus, Hu|done|].
    by exists w', evs.
  - intros clicked w w' evs Hus Hrun.
    apply next_step_rerun in Hrun as (_ & _ & ->). by rewrite Hus.
Qed.

Lemma C8_next_entry_wraps_witness :
  let us := ["article-1"; "article-2"] in
  let by_uid : gmap string val := <["article-2" := cat]> (<["article-1" := dog]> ∅) in
  Loader.index_entries [dog; cat] ∅ [] = Some (by_uid, us)
  ∧ us !! 1 = Some "article-2"
  ∧ next_idx us "article-2" = Some 0
  ∧ next_uid us "article-2" = Some "article-1"
  ∧ ∃ w' evs,
      next_step "article-2" (Some "go_next") fresh_world
      = (inl RerunException, w', evs)
      ∧ current_uid w' = Some "article-1"
      ∧ Rendered "go_next" ∈ evs.
Proof.
  intros us by_uid.
  assert (Hidx : Loader.index_entries [dog; cat] ∅ [] = Some (by_uid, us))
    by reflexivity.
  assert (Hk : us !! 1 = Some "article-2") by reflexivity.
  destruct (C8_next_entry_wraps [dog; cat] by_uid us 1 "article-2" Hidx Hk)
    as (Hi & _ & _ & Hwrap & _ & Hgo & _).
  split_and!; [done|done|exact Hi|exact (Hwrap eq_refl)|].
  apply (Hgo fresh_world "article-1"); [reflexivity|reflexivity|].
  exists (items dog), (VStr "Dog"). split; reflexivity.
Defined.

(** ** Claim C5: loading the same bytes twice *)

(** Two loaded entries are the same, or the same dictionary that had no
    [uid] with a generated one appended. *)
Definition agree_up_to_uid (e e' : val) : Prop :=
  e = e'
  ∨ ∃ kvs t t',
      dict_get "uid" kvs = None
      ∧ e = VDict (kvs ++ [("uid", VStr t)])
      ∧ e' = VDict (kvs ++ [("uid", VStr t')]).

(** The two outcomes of a load agree up to generated uids. *)
Definition loads_agree (r r' : Loader.load_error + list val) : Prop :=
  match r, r' with
  | inr es, inr es' => Forall2 agree_up_to_uid es es'
  | inl e, inl e' => e = e'
  | _, _ => False
  end.

(** [entries] is [es] after the loop of lines 39-40 or 51-52: every entry
    of [es] is a dict, kept at its position, and the one at index [i] has
    got [uid i] under ["uid"] when it had no uid. *)
Definition uids_assigned (uid : nat → string) (es entries : list val) : Prop :=
  length entries = length es
  ∧ ∀ i e, es !! i = Some e →
      ∃ kvs, e = VDict kvs
             ∧ entries !! i
               = Some (VDict (match dict_get "uid" kvs with
                              | Some _ => kvs
                              | None => kvs ++ [("uid", VStr (uid i))]
                              end)).

Lemma assign_uids_agree uid uid' index index' entries :
  loads_agree (Loader.assign_uids uid index entries)
    (Loader.assign_uids uid' index' entries).
Proof.
  revert index index'.
  induction entries as [|e entries IH]; intros index index'; simpl.
  - constructor.
  - destruct e as [| | | | |kvs]; try done.
    specialize (IH (S index) (S index')). unfold loads_agree in IH.
    destruct (Loader.assign_uids uid (S index) entries) as [err|rest],
      (Loader.assign_uids uid' (S index') entries) as [err'|rest']; try done.
    simpl. constructor; [|done].
    unfold dict_setdefault.
    destruct (dict_get "uid" kvs) eqn:Huid; [by left|].
    right. by exists kvs, (uid index), (uid' index').
Qed.

Lemma assign_uids_ext uid uid' index entries :
  (∀ i, uid i = uid' i) →
  Loader.assign_uids uid index entries = Loader.assign_uids uid' index entries.
Proof.
  intros Hext. revert index.
  induction entries as [|e entries IH]; intros index; simpl; [done|].
  destruct e as [| | | | |kvs]; try done.
  by rewrite IH, Hext.
Qed.

Lemma assign_uids_assigned uid index es entries :
  Loader.assign_uids uid index es = inr entries →
  uids_assigned (λ i, uid (index + i)) es entries.
Proof.
  revert index entries.
  induction es as [|e es IH]; intros index entries; simpl.
  - intros [= <-]. by split.
  - destruct e as [| | | | |kvs]; try done.
    destruct (Loader.assign_uids uid (S index) es) as [err|rest] eqn:Hrest;
      [done|].
    intros [= <-]. destruct (IH _ _ Hrest) as [Hlen Hall].
    split; [simpl; by rewrite Hlen|].
    intros [|i] e; simpl.
    + intros [= <-]. exists kvs. split; [done|].
      by rewrite Nat.add_0_r.
    + intros He. destruct (Hall i e He) as (kvs' & -> & Hi).
      exists kvs'. split; [done|].
      by rewrite Hi, Nat.add_succ_r.
Qed.

Lemma load_assigned json_load uid content entries :
  Loader.load json_load uid content = inr entries →
  ∃ raw es, json_load content = Some raw
            ∧ Loader.entries_of raw = inr es
            ∧ uids_assigned uid es entries.
Proof.
  unfold Loader.load.
  destruct (json_load content) as [raw|]; [|done].
  destruct (Loader.entries_of raw) as [err|es] eqn:Hes; [done|].
  intros Hassign%assign_uids_assigned. by exists raw, es.
Qed.

Lemma load_agree json_load uid uid' content :
  loads_agree (Loader.load json_load uid content)
    (Loader.load json_load uid' content).
Proof.
  unfold Loader.load.
  destruct (json_load content) as [raw|]; [|done].
  destruct (Loader.entries_of raw); [done|apply assign_uids_agree].
Qed.

Lemma load_ext json_load uid uid' content :
  (∀ i, uid i = uid' i) →
  Loader.load json_load uid content = Loader.load json_load uid' content.
Proof.
  intros Hext. unfold Loader.load.
  destruct (json_load content) as [raw|]; [|done].
  destruct (Loader.entries_of raw); [done|by apply assign_uids_ext].
Qed.

(** A call of the decorated loader that returns leaves its value in the
    cache under the key of its argument. *)
Lemma load_entries_from_file_stores json_load cache uuid4 f entries cache1 f1 :
  Loader.load_entries_from_file json_load cache uuid4 f
  = (inr entries, cache1, f1) →
  cache1 !! Loader.file_key f = Some entries
  ∧ (∀ key, key ≠ Loader.file_key f → cache1 !! key = cache !! key).
Proof.
  unfold Loader.load_entries_from_file.
  destruct (cache !! Loader.file_key f) as [stored|] eqn:Hc.
  - by intros [= <- <- _].
  - destruct (Loader.load_entries_from_file_body json_load uuid4 f); [done|].
    intros [= <- <- _]. split; [apply lookup_insert_eq|].
    intros key Hkey. by apply lookup_insert_ne.
Qed.

Lemma load_entries_stores json_load cache fs path entries cache1 :
  Loader.load_entries json_load cache fs path = (inr entries, cache1) →
  cache1 !! path = Some entries.
Proof.
  unfold Loader.load_entries.
  destruct (cache !! path) as [stored|] eqn:Hc.
  - by intros [= <- <-].
  - destruct (Loader.load_entries_body json_load fs path); [done|].
    intros [= <- <-]. apply lookup_insert_eq.
Qed.

(** A one-entry file without [uid], what [json.load] makes of it, and two
    draws of [uuid4]. *)
Definition quoted (s : string) : string :=
  String (ascii_of_nat 34) (s +:+ String (ascii_of_nat 34) "").

Definition one_dog_json : string :=
  "[{" +:+ quoted "entity_id" +:+ ": " +:+ quoted "Dog" +:+ "}]".

Definition one_dog : val := VList [VDict [("entity_id", VStr "Dog")]].

Definition parse_one_dog (content : string) : option val :=
  if String.eqb content one_dog_json then Some one_dog else None.

Definition first_draw (_ : nat) : string := "1b9d6bcd-bbfd-4b2d-9b5d-ab8dfbbd4bed".
Definition second_draw (_ : nat) : string := "9c858901-8a57-4791-81fe-4c455b099bc9".

(** The same bytes uploaded under two names. *)
Definition dogs_a : Loader.uploaded_file := Loader.UploadedFile "a.json" 0 one_dog_json.
Definition dogs_b : Loader.uploaded_file := Loader.UploadedFile "b.json" 0 one_dog_json.

Definition first_dog : val :=
  VDict [("entity_id", VStr "Dog");
         ("uid", VStr "1b9d6bcd-bbfd-4b2d-9b5d-ab8dfbbd4bed")].

Definition second_dog : val :=
  VDict [("entity_id", VStr "Dog");
         ("uid", VStr "9c858901-8a57-4791-81fe-4c455b099bc9")].

(** C5 (amended).  (1) Two runs of the body of [load_entries_from_file] on
    files that read the same bytes fail alike or return collections that
    agree entry by entry, except that an entry without [uid] in the file
    gets, appended, the token that [uuid4] draws for it in that run; the
    runs return the same collection when they draw the same tokens.
    (2) A run that returns keeps every entry at its position and gives the
    entry at index [i] without uid the [i]-th token drawn.
    (3) Under [st.cache_data], after a call that returned, a call on a file
    with the same name, position and bytes returns the stored collection
    and draws nothing; a call on a file whose name, position or bytes
    differ and that was not stored before runs the body again.
    (4) The body of [load_entries] gives the entry at index [i] without uid
    the decimal string of [i]; it depends on the path only through what the
    file holds.  (5) Under [st.cache_data], after a call of [load_entries]
    that returned, a call with the same path returns the stored collection
    whatever the file holds by then. *)
Theorem C5_loading_up_to_generated_uids (json_load : string → option val)
    (uuid4 uuid4' : nat → string) (f f' : Loader.uploaded_file) :
  (Loader.read f = Loader.read f' →
   loads_agree (Loader.load_entries_from_file_body json_load uuid4 f)
     (Loader.load_entries_from_file_body json_load uuid4' f')
   ∧ ((∀ i, uuid4 i = uuid4' i) →
      Loader.load_entries_from_file_body json_load uuid4 f
      = Loader.load_entries_from_file_body json_load uuid4' f'))
  ∧ (∀ entries,
       Loader.load_entries_from_file_body json_load uuid4 f = inr entries →
       ∃ raw es, json_load (Loader.read f) = Some raw
                 ∧ Loader.entries_of raw = inr es
                 ∧ uids_assigned uuid4 es entries)
  ∧ (∀ cache entries cache1 f1,
       Loader.load_entries_from_file json_load cache uuid4 f
       = (inr entries, cache1, f1) →
       (Loader.file_key f' = Loader.file_key f →
        Loader.load_entries_from_file json_load cache1 uuid4' f'
        = (inr entries, cache1, f'))
       ∧ (Loader.file_key f' ≠ Loader.file_key f →
          cache !! Loader.file_key f' = None →
          (Loader.load_entries_from_file json_load cache1 uuid4' f').1.1
          = Loader.load_entries_from_file_body json_load uuid4' f'))
  ∧ (∀ fs path entries,
       Loader.load_entries_body json_load fs path = inr entries →
       ∃ content raw es,
         fs path = Some content
         ∧ json_load content = Some raw
         ∧ Loader.entries_of raw = inr es
         ∧ uids_assigned (λ i, pretty i) es entries)
  ∧ (∀ fs fs' path path',
       fs path = fs' path' →
       Loader.load_entries_body json_load fs path
       = Loader.load_entries_body json_load fs' path')
  ∧ (∀ cache fs fs' path entries cache1,
       Loader.load_entries json_load cache fs path = (inr entries, cache1) →
       Loader.load_entries json_load cache1 fs' path = (inr entries, cache1)).
Proof.
  split_and!.
  - unfold Loader.load_entries_from_file_body. intros <-.
    split; [apply load_agree|apply load_ext].
  - intros entries. apply load_assigned.
  - intros cache entries cache1 f1 Hfirst.
    apply load_entries_from_file_stores in Hfirst as [Hstored Hrest].
    split.
    + intros Hkey. unfold Loader.load_entries_from_file.
      by rewrite Hkey, Hstored.
    + intros Hkey Hmiss. unfold Loader.load_entries_from_file.
      rewrite (Hrest _ Hkey), Hmiss.
      by destruct (Loader.load_entries_from_file_body json_load uuid4' f').
  - intros fs path entries. unfold Loader.load_entries_body.
    destruct (fs path) as [content|]; [|done].
    intros (raw & es & ? & ? & ?)%load_assigned. by exists content, raw, es.
  - intros fs fs' path path' Hfs. unfold Loader.load_entries_body.
    by rewrite Hfs.
  - intros cache fs fs' path entries cache1 Hfirst.
    apply load_entries_stores in Hfirst.
    unfold Loader.load_entries. by rewrite Hfirst.
Qed.

(** The theorem on the one-entry file: a second call on [a.json] returns
    the uid of the first call, although [uuid4] would draw another one. *)
Lemma C5_loading_up_to_generated_uids_witness :
  let first := Loader.load_entries_from_file parse_one_dog ∅ first_draw dogs_a in
  first.1.1 = inr [first_dog]
  ∧ Loader.load_entries_from_file parse_one_dog first.1.2 second_draw dogs_a
    = (inr [first_dog], first.1.2, dogs_a)
  ∧ uids_assigned first_draw [VDict [("entity_id", VStr "Dog")]] [first_dog].
Proof.
  intros first.
  assert (Hfirst : first
                   = (inr [first_dog], <[Loader.file_key dogs_a := [first_dog]]> ∅,
                      Loader.exhausted dogs_a)) by reflexivity.
  destruct (C5_loading_up_to_generated_uids parse_one_dog first_draw second_draw
              dogs_a dogs_a) as (_ & Hassigned & Hcache & _).
  destruct (Hcache _ _ _ _ Hfirst) as [Hhit _].
  rewrite Hfirst. split_and!; [done|exact (Hhit eq_refl)|].
  destruct (Hassigned [first_dog] eq_refl) as (raw & es & Hraw & Hes & Hall).
  vm_compute in Hraw. injection Hraw as <-.
  injection Hes as <-. exact Hall.
Defined.

(** C5 as stated fails: the same bytes, uploaded as [a.json] and then as
    [b.json], are loaded twice, and the entry that has no uid in the file
    gets two different uids. *)
Lemma C5_counterexample :
  let first := Loader.load_entries_from_file parse_one_dog ∅ first_draw dogs_a in
  let second :=
    Loader.load_entries_from_file parse_one_dog first.1.2 second_draw dogs_b in
  Loader.read dogs_a = Loader.read dogs_b
  ∧ first.1.1 = inr [first_dog]
  ∧ second.1.1 = inr [second_dog]
  ∧ first.1.1 ≠ second.1.1.
Proof.
  assert (Hmiss : (<[Loader.file_key dogs_a := [first_dog]]> ∅
                   : gmap (string * nat * string) (list val))
                  !! Loader.file_key dogs_b = None).
  { by rewrite lookup_insert_ne, lookup_empty. }
  cbv zeta.
  change (Loader.load_entries_from_file parse_one_dog ∅ first_draw dogs_a)
    with (inr [first_dog] : Loader.load_error + list val,
          (<[Loader.file_key dogs_a := [first_dog]]> ∅
           : gmap (string * nat * string) (list val)),
          Loader.exhausted dogs_a).
  cbn [fst snd]. unfold Loader.load_entries_from_file. rewrite Hmiss.
  by split_and!.
Qed.

(** ** Claim C1: the dog example *)

Definition dog_before : list ascii := lit "The dog is loyal".
Definition dog_after : list ascii := lit "The dog is very loyal and friendly".

(** C1 (amended): for "The dog is loyal" and "The dog is very loyal and
    friendly" the matcher also matches the word "loyal", so the opcodes are
    equal a[0:3]/b[0:3], insert b[3:4] ("very"), equal a[3:4]/b[4:5]
    ("loyal"), insert b[5:7] ("and friendly"); the first output is the
    original text without any marker and the second marks the two inserted
    runs. *)
Theorem C1_dog_example :
  get_opcodes (split dog_before) (split dog_after)
  = Some [(Equal, 0, 3, 0, 3); (Insert, 3, 3, 3, 4);
          (Equal, 3, 4, 4, 5); (Insert, 4, 4, 5, 7)]
  ∧ show (get_text_diff_v2_highlight dog_before dog_after)
    = Some ("The dog is loyal",
            "The dog is <ins>very</ins> loyal <ins>and friendly</ins>").
Proof. split; by vm_compute. Qed.

(** C1 as stated fails: the opcodes are not "equal, replace" and neither
    output is the one the claim gives. *)
Lemma C1_counterexample :
  get_opcodes (split dog_before) (split dog_after)
  ≠ Some [(Equal, 0, 3, 0, 3); (Replace, 3, 4, 3, 7)]
  ∧ (∀ out, show (get_text_diff_v2_highlight dog_before dog_after) = Some out →
            out.1 ≠ "The dog is <del>loyal</del>"
            ∧ out.2 ≠ "The dog is <ins>very loyal and friendly</ins>").
Proof.
  split; [by vm_compute|].
  intros out. vm_compute. intros [= <-]. by split.
Qed.

(** ** Claim C6: a text against itself *)

Definition markers : list (list ascii) := [DEL_OPEN; DEL_CLOSE; INS_OPEN; INS_CLOSE].

Lemma markers_plain m : m ∈ markers → m ≠ [] ∧ " "%char ∉ m.
Proof.
  unfold markers. intros Hm.
  repeat (apply elem_of_cons in Hm as [->|Hm];
          [split; [by vm_compute|solve_decide]|]).
  by apply elem_of_nil in Hm.
Qed.

(** A word: not empty, no whitespace. *)
Definition is_word (w : list ascii) : Prop :=
  w ≠ [] ∧ Forall (λ c, isspace c = false) w.

Lemma split_from_word cur w s :
  Forall (λ c, isspace c = false) w →
  split_from cur (w ++ s) = split_from (rev w ++ cur) s.
Proof.
  intros Hw. revert cur. induction Hw as [|c w Hc Hw IH]; intros cur; [done|].
  simpl. rewrite Hc, IH. by rewrite <-app_assoc.
Qed.

Lemma split_from_flush w s :
  w ≠ [] → split_from (rev w) (" "%char :: s) = w :: split_from [] s.
Proof.
  intros Hw. simpl. destruct (rev w) as [|c cur] eqn:Hrev.
  - by rewrite <-(rev_involutive w), Hrev in Hw.
  - by rewrite <-Hrev, rev_involutive.
Qed.

(** Splitting undoes a single-space join of words. *)
Lemma split_join ws : Forall is_word ws → split (join SP ws) = ws.
Proof.
  unfold split. induction 1 as [|w ws [Hne Hw] Hws IH]; [done|].
  destruct ws as [|w' ws].
  - pose proof (split_from_word [] w [] Hw) as Heq.
    rewrite !app_nil_r in Heq. simpl. rewrite Heq.
    simpl. destruct (rev w) as [|c cur] eqn:Hrev.
    + by rewrite <-(rev_involutive w), Hrev in Hne.
    + by rewrite <-Hrev, rev_involutive.
  - change (join SP (w :: w' :: ws)) with (w ++ " "%char :: join SP (w' :: ws)).
    rewrite split_from_word, app_nil_r by done.
    by rewrite split_from_flush, IH.
Qed.

(** C6 (amended): for every string [a], both outputs of [highlight(a, a)]
    are the words of [a] joined by single spaces, which is [a] itself only
    when [a] is already in that form (runs of whitespace collapse, leading
    and trailing whitespace goes); no [<del>] or [<ins>] marker is added: an
    output contains one of the four markers only if [a] does. *)
Theorem C6_same_text (a : list ascii) :
  get_text_diff_v2_highlight a a = Some (join SP (split a), join SP (split a))
  ∧ (∀ m, m ∈ markers → contains m (join SP (split a)) → contains m a)
  ∧ (∀ ws, Forall is_word ws → a = join SP ws →
           get_text_diff_v2_highlight a a = Some (a, a)).
Proof.
  split_and!.
  - apply highlight_same.
  - intros m [Hne Hsp]%markers_plain. by apply contains_normalized.
  - intros ws Hws ->. by rewrite highlight_same, split_join.
Qed.

(** C6 as stated fails: two spaces between the words come out as one. *)
Lemma C6_counterexample :
  let a := lit "a  b" in
  get_text_diff_v2_highlight a a = Some (lit "a b", lit "a b")
  ∧ get_text_diff_v2_highlight a a ≠ Some (a, a).
Proof. by vm_compute. Qed.

(** ** Claim C10: the words survive *)

(** [pat in s], decided by trying every position. *)
Fixpoint containsb (pat s : list ascii) : bool :=
  startswith pat s
  || match s with
     | [] => false
     | _ :: s' => containsb pat s'
     end.

Lemma containsb_true pat s : contains pat s → containsb pat s = true.
Proof.
  intros (u & v & ->). induction u as [|c u IH].
  - assert (Hs : startswith pat (pat ++ v) = true)
      by (apply startswith_true; by exists v).
    change ([] ++ pat ++ v) with (pat ++ v).
    destruct (pat ++ v); simpl; by rewrite Hs.
  - change (containsb pat ((c :: u) ++ pat ++ v))
      with (startswith pat ((c :: u) ++ pat ++ v) || containsb pat (u ++ pat ++ v)).
    rewrite IH. apply orb_true_r.
Qed.

Lemma containsb_false pat s : containsb pat s = false → ¬ contains pat s.
Proof. intros Hb Hc%containsb_true. congruence. Qed.

Lemma markers_absent s :
  forallb (λ m, negb (containsb m s)) markers = true →
  ∀ m, m ∈ markers → ¬ contains m s.
Proof.
  intros Hall m Hm. apply containsb_false.
  rewrite forallb_forall in Hall. apply negb_true_iff, Hall.
  by apply list_elem_of_In.
Qed.

(** C10: for strings [a] and [b] that contain none of the four markers,
    [highlight a b] returns a pair; deleting every [<del>] and [</del>] from
    its first component leaves the words of [a] joined by single spaces, and
    deleting every [<ins>] and [</ins>] from its second component leaves the
    words of [b] joined by single spaces. *)
Theorem C10_highlight_preserves_content (a b : list ascii) :
  (∀ m, m ∈ markers → ¬ contains m a ∧ ¬ contains m b) →
  ∃ a_hl b_hl,
    get_text_diff_v2_highlight a b = Some (a_hl, b_hl)
    ∧ remove DEL_CLOSE (remove DEL_OPEN a_hl) = join SP (split a)
    ∧ remove INS_CLOSE (remove INS_OPEN b_hl) = join SP (split b).
Proof.
  intros Hfree. apply highlight_keeps_words.
  - apply (Hfree DEL_OPEN). unfold markers. solve_elem_of.
  - apply (Hfree DEL_CLOSE). unfold markers. solve_elem_of.
  - apply (Hfree INS_OPEN). unfold markers. solve_elem_of.
  - apply (Hfree INS_CLOSE). unfold markers. solve_elem_of.
Qed.

Lemma C10_highlight_preserves_content_witness :
  (∀ m, m ∈ markers → ¬ contains m dog_before ∧ ¬ contains m dog_after)
  ∧ ∃ a_hl b_hl,
      get_text_diff_v2_highlight dog_before dog_after = Some (a_hl, b_hl)
      ∧ remove DEL_CLOSE (remove DEL_OPEN a_hl) = join SP (split dog_before)
      ∧ remove INS_CLOSE (remove INS_OPEN b_hl) = join SP (split dog_after).
Proof.
  assert (Hfree : ∀ m, m ∈ markers →
                       ¬ contains m dog_before ∧ ¬ contains m dog_after).
  { intros m Hm. split; (apply markers_absent; [by vm_compute|done]). }
  split; [exact Hfree|].
  exact (C10_highlight_preserves_content dog_before dog_after Hfree).
Defined.
